(** * target-s3-jsonl: the stream segmenter and the upload pipeline of
    [src/target_s3_json/s3.py], embedded in Rocq.

    Python dictionaries are [gmap string value]; [bytes] objects are lists of
    bytes; the module globals [curSchemaBuffer] and [lastFlushTime], the shared
    standard input and the wall clock are fields of one explicit process
    state that every operation threads through; raised exceptions are the
    [Raise] branch of [result].  Functions of the Python standard library and
    of third-party packages ([json.loads], [gzip.compress], [time.time], ...)
    are section variables: every theorem holds whatever they compute. *)

From Stdlib Require Import ZArith QArith Qround Lia Lqa.
From Stdlib Require Import Strings.String Strings.Ascii Strings.Byte.
From stdpp Require Import base option list gmap strings pretty.

Set Warnings "-register-all".

Local Open Scope string_scope.
Local Open Scope list_scope.
Local Open Scope Z_scope.

(** ** Exceptions and results *)

Inductive exn : Type :=
| JSONDecodeError
| UnicodeDecodeError
| KeyError (key : string)
| TypeError
| AttributeError
| NotImplementedError (msg : string)
| ClientError (code : string)
| FileNotFoundError
| OtherError (msg : string).

Inductive result (A : Type) : Type :=
| Ok (a : A)
| Raise (e : exn).
Arguments Ok {A} a.
Arguments Raise {A} e.

(** An exception propagates through everything that follows the statement
    raising it: [x ← r; k] runs [k] only on a returned value. *)
#[global] Instance result_ret : MRet result := fun A a => Ok a.
#[global] Instance result_bind : MBind result := fun A B k r =>
  match r with
  | Ok a => k a
  | Raise e => Raise e
  end.

Definition is_ok {A} (r : result A) : bool :=
  match r with Ok _ => true | Raise _ => false end.

(** ** Bytes *)

Abbreviation bytes := (list byte).

Definition b (s : string) : bytes := list_byte_of_string s.

Definition newline : byte := "010"%byte.

Definition byte_eqb (x y : byte) : bool := Byte.eqb x y.

(** [BufferedIOBase.readline]: the bytes up to and including the first
    newline, or everything that is left when there is none; the empty
    bytes object at end of input.  Returns the line and the rest. *)
Fixpoint readline (inp : bytes) : bytes * bytes :=
  match inp with
  | [] => ([], [])
  | c :: rest =>
      if byte_eqb c newline then ([c], rest)
      else let '(l, rest') := readline rest in (c :: l, rest')
  end.

(** The lines a stream holds: what successive [readline] calls return. *)
Fixpoint split_lines (inp : bytes) : list bytes :=
  match inp with
  | [] => []
  | c :: rest =>
      if byte_eqb c newline then [c] :: split_lines rest
      else match split_lines rest with
           | [] => [[c]]
           | l :: ls => (c :: l) :: ls
           end
  end.

(** Python slicing [x[:n]] and [x[n:]], negative [n] counting from the end. *)
Definition slice_index (n : Z) (len : nat) : nat :=
  if n <? 0 then Z.to_nat (Z.max 0 (Z.of_nat len + n))
  else Nat.min (Z.to_nat n) len.

Definition slice_to (x : bytes) (n : Z) : bytes := take (slice_index n (length x)) x.
Definition slice_from (x : bytes) (n : Z) : bytes := drop (slice_index n (length x)) x.

(** ** Python values *)

Inductive callable : Type :=
| gzip_compress
| lzma_compress
| builtin_open.

Inductive value : Type :=
| VNone
| VBool (v : bool)
| VInt (n : Z)
| VFloat (q : Q)
| VStr (s : string)
| VList (l : list value)
| VDict (d : list (string * value))
| VFunc (f : callable)
| VClient (endpoint : value) (proxies : value)
| VExecutor.

(** Truth value of an object, as [if x:] tests it. *)
Definition truthy (v : value) : bool :=
  match v with
  | VNone => false
  | VBool v => v
  | VInt n => negb (n =? 0)
  | VFloat q => negb (Qeq_bool q 0)
  | VStr s => negb (String.eqb s "")
  | VList l => match l with [] => false | _ => true end
  | VDict d => match d with [] => false | _ => true end
  | VFunc _ => true
  | VClient _ _ => true
  | VExecutor => true
  end.

(** [v == s] for a string literal [s]. *)
Definition eq_str (v : value) (s : string) : bool :=
  match v with
  | VStr s' => String.eqb s' s
  | _ => false
  end.

(** Lookup in a parsed JSON object: the last binding of a repeated key is
    the one [json.loads] keeps. *)
Fixpoint assoc_last (k : string) (d : list (string * value)) : option value :=
  match d with
  | [] => None
  | (k', v) :: d' =>
      match assoc_last k d' with
      | Some w => Some w
      | None => if String.eqb k' k then Some v else None
      end
  end.

(** [line[key]] for a string key: [KeyError] on a dict without the key,
    [TypeError] on anything that is not a dict. *)
Definition getitem (line : value) (key : string) : result value :=
  match line with
  | VDict d =>
      match assoc_last key d with
      | Some v => Ok v
      | None => Raise (KeyError key)
      end
  | _ => Raise TypeError
  end.

(** [x > v] for a float [x]: numbers compare, [bool] is a number, anything
    else raises [TypeError]. *)
Definition Qgtb (x y : Q) : bool := negb (Qle_bool x y).

Definition float_gt (x : Q) (v : value) : result bool :=
  match v with
  | VInt n => Ok (Qgtb x (inject_Z n))
  | VFloat q => Ok (Qgtb x q)
  | VBool v => Ok (Qgtb x (inject_Z (if v then 1 else 0)))
  | _ => Raise TypeError
  end.

(** The number a value stands for in such a comparison. *)
Definition as_number (v : value) : option Q :=
  match v with
  | VInt n => Some (inject_Z n)
  | VFloat q => Some q
  | VBool v => Some (inject_Z (if v then 1 else 0))
  | _ => None
  end.

(** [dict.get(key)] and [dict.get(key, default)]. *)
Definition get (config : gmap string value) (key : string) : value :=
  default VNone (config !! key).

Definition get_default (config : gmap string value) (key : string) (d : value) : value :=
  default d (config !! key).

(** [config[key]]. *)
Definition subscript (config : gmap string value) (key : string) : result value :=
  match config !! key with
  | Some v => Ok v
  | None => Raise (KeyError key)
  end.

(** ** The process state

    [stdin] is what is left of the input stream that every segment reads
    from; [now] lists the readings the wall clock will give, [ticks] counts
    the calls to [time.time] made so far; [curSchemaBuffer] and
    [lastFlushTime] are the two module globals. *)

Record Process : Type := mkProcess {
  stdin : bytes;
  now : nat -> Q;
  ticks : nat;
  curSchemaBuffer : bytes;
  lastFlushTime : Q
}.

Definition set_stdin (p : Process) (x : bytes) : Process :=
  mkProcess x (now p) (ticks p) (curSchemaBuffer p) (lastFlushTime p).
Definition set_ticks (p : Process) (x : nat) : Process :=
  mkProcess (stdin p) (now p) x (curSchemaBuffer p) (lastFlushTime p).
Definition set_curSchemaBuffer (p : Process) (x : bytes) : Process :=
  mkProcess (stdin p) (now p) (ticks p) x (lastFlushTime p).
Definition set_lastFlushTime (p : Process) (x : Q) : Process :=
  mkProcess (stdin p) (now p) (ticks p) (curSchemaBuffer p) x.

(** [time.time()]. *)
Definition time_time (p : Process) : Q * Process :=
  (now p (ticks p), set_ticks p (S (ticks p))).

(** Module import: [curSchemaBuffer = b''] and [lastFlushTime = time.time()]. *)
Definition import_module (input : bytes) (clock : nat -> Q) : Process :=
  mkProcess input clock 1 [] (clock 0%nat).

(** ** WrappedIoBuffer *)

Record WrappedIoBuffer : Type := mkWrappedIoBuffer {
  closed : bool;
  empty : bool;
  buffer : bytes;
  storedLine : bool;
  stoppedState : bool;
  flushSeconds : value
}.

Definition set_closed (self : WrappedIoBuffer) (x : bool) : WrappedIoBuffer :=
  mkWrappedIoBuffer x (empty self) (buffer self) (storedLine self)
    (stoppedState self) (flushSeconds self).
Definition set_empty (self : WrappedIoBuffer) (x : bool) : WrappedIoBuffer :=
  mkWrappedIoBuffer (closed self) x (buffer self) (storedLine self)
    (stoppedState self) (flushSeconds self).
Definition set_buffer (self : WrappedIoBuffer) (x : bytes) : WrappedIoBuffer :=
  mkWrappedIoBuffer (closed self) (empty self) x (storedLine self)
    (stoppedState self) (flushSeconds self).
Definition set_stoppedState (self : WrappedIoBuffer) (x : bool) : WrappedIoBuffer :=
  mkWrappedIoBuffer (closed self) (empty self) (buffer self) (storedLine self)
    x (flushSeconds self).

(** [WrappedIoBuffer.__init__]: the buffer starts as the schemas retained so
    far. *)
Definition WrappedIoBuffer_init (p : Process) (flushSeconds : value) : WrappedIoBuffer :=
  mkWrappedIoBuffer false false (curSchemaBuffer p) false false flushSeconds.

Definition readable (self : WrappedIoBuffer) : bool := negb (closed self).
Definition writable (self : WrappedIoBuffer) : bool := false.
Definition seekable (self : WrappedIoBuffer) : bool := false.

Section Segmenter.

(** [json.loads] on the bytes of one line: the parsed value, or the
    exception it raises. *)
Variable json_loads : bytes -> result value.

(** [WrappedIoBuffer.readMore]. *)
Definition readMore (self : WrappedIoBuffer) (p : Process)
  : result (WrappedIoBuffer * Process) :=
  if empty self || closed self then Ok (self, p)
  else
    let '(readData, rest) := readline (stdin p) in
    let p := set_stdin p rest in
    match readData with
    | [] => Ok (set_empty self true, p)
    | _ :: _ =>
        line ← json_loads readData;
        ty ← getitem line "type";
        '(self, p) ←
          (if eq_str ty "STATE" then
             let '(curTime, p) := time_time p in
             late ← float_gt (curTime - lastFlushTime p)%Q (flushSeconds self);
             if (late : bool) then
               Ok (set_stoppedState (set_empty self true) true,
                   set_lastFlushTime p curTime)
             else Ok (self, p)
           else Ok (self, p));
        ty ← getitem line "type";
        let p :=
          if eq_str ty "SCHEMA"
          then set_curSchemaBuffer p (curSchemaBuffer p ++ readData)
          else p in
        Ok (set_buffer self (buffer self ++ readData), p)
    end.

(** [WrappedIoBuffer.read]: the bytes returned, the object and the process
    afterwards. *)
Definition read (self : WrappedIoBuffer) (size : Z) (p : Process)
  : result (bytes * WrappedIoBuffer * Process) :=
  let readSize := if size =? -1 then 8192 else size in
  '(self, p) ←
    (if Z.of_nat (length (buffer self)) <? readSize then readMore self p
     else Ok (self, p));
  if (length (buffer self) =? 0)%nat then Ok ([], set_closed self true, p)
  else Ok (slice_to (buffer self) readSize,
           set_buffer self (slice_from (buffer self) readSize), p).

End Segmenter.

(** ** The retry decorator

    [backoff.on_exception(wait_gen, exception, max_tries, ...)] of the
    [backoff] package, which the source only imports.  The decorated function
    is called; an exception of the given class makes the decorator give up
    and re-raise once [max_tries] calls were made, and otherwise sleep and
    call again; any other exception propagates at once.  The time slept is
    [jitter(next(wait_gen))]: the source passes no [jitter], so the package's
    default [full_jitter] applies, which is [random.uniform(0, value)]. *)

Record Retried (S A : Type) : Type := mkRetried {
  outcome : result A;
  final : S;
  tries : nat;
  waits : list Q
}.
Arguments mkRetried {S A}.
Arguments outcome {S A}.
Arguments final {S A}.
Arguments tries {S A}.
Arguments waits {S A}.

(** [backoff.expo(base, factor)]: the n-th value is [factor * base ** n]. *)
Definition expo (base factor : Q) (n : nat) : Q := (factor * base ^ Z.of_nat n)%Q.

(** [backoff.full_jitter(value)], on the draw [u] of [random.random()]. *)
Definition full_jitter (u : Q) (value : Q) : Q := (0 + (value - 0) * u)%Q.

Definition is_ClientError (e : exn) : bool :=
  match e with ClientError _ => true | _ => false end.

Section Backoff.
Context {S A : Type}.
(** [draws n]: the draw of [random.random()] behind the n-th wait. *)
Variable draws : nat -> Q.
Variables base factor : Q.

(** The retry loop after [n] failed calls, with [left] calls still allowed
    after the next one. *)
Fixpoint attempts (left n : nat) (target : S -> result A * S) (st : S)
  : Retried S A :=
  match target st with
  | (Ok a, st') => mkRetried (Ok a) st' (1 + n) []
  | (Raise e, st') =>
      if is_ClientError e then
        match left with
        | O => mkRetried (Raise e) st' (1 + n) []
        | Datatypes.S left' =>
            let seconds := full_jitter (draws n) (expo base factor n) in
            let r := attempts left' (1 + n) target st' in
            mkRetried (outcome r) (final r) (tries r) (seconds :: waits r)
        end
      else mkRetried (Raise e) st' (1 + n) []
  end.

Definition on_exception (max_tries : nat) (target : S -> result A * S) (st : S)
  : Retried S A :=
  attempts (max_tries - 1) 0 target st.
End Backoff.

(** [_retry_pattern()]: [backoff.expo] with its default base 2 and
    [factor=10], [max_tries=5]. *)
Definition _retry_pattern {S A} (draws : nat -> Q) (target : S -> result A * S)
  : S -> Retried S A :=
  on_exception draws 2 10 5 target.

(** ** Strings *)

Definition lower_ascii (c : ascii) : ascii :=
  let n := nat_of_ascii c in
  if ((65 <=? n) && (n <=? 90))%nat then ascii_of_nat (n + 32) else c.

(** [str.lower] on ASCII text, where it changes the letters A to Z only.
    On other text Python also maps letters outside ASCII, the KELVIN SIGN to
    [k] among them: what is stated of the result for such text says so. *)
Fixpoint lower (s : string) : string :=
  match s with
  | EmptyString => EmptyString
  | String c s' => String (lower_ascii c) (lower s')
  end.

(** The text is ASCII. *)
Definition is_ascii (s : string) : bool :=
  forallb (fun c => (nat_of_ascii c <? 128)%nat) (list_ascii_of_string s).

(** [v.lower()]: only strings have the method. *)
Definition str_lower (v : value) : result string :=
  match v with
  | VStr s => Ok (lower s)
  | _ => Raise AttributeError
  end.

(** [v + suffix] for a string literal [suffix]. *)
Definition str_add (v : value) (suffix : string) : result value :=
  match v with
  | VStr s => Ok (VStr (s +:+ suffix))
  | _ => Raise TypeError
  end.

(** ** Local files and the object store *)

Record FileMetadata : Type := mkFileMetadata {
  absolute_path : string;
  relative_path : string
}.

Inductive body : Type :=
| BytesBody (data : bytes)
| FileBody (path : string).

Inductive s3_call : Type :=
| PutObject (Body : body) (Bucket : value) (Key : string) (ExtraArgs : value)
| UploadFile (Filename : string) (Bucket : value) (Key : string) (ExtraArgs : option value).

(** [files]: the local file system, path to content; [requests]: the calls
    made on the S3 client so far, oldest first; [service k]: how the k-th of
    them ends, [None] when it returns and [Some e] when it raises [e], a
    [ClientError] or any other exception of the client library. *)
Record World : Type := mkWorld {
  files : gmap string bytes;
  requests : list s3_call;
  service : nat -> option exn
}.

Definition send (c : s3_call) (w : World) : result unit * World :=
  let w' := mkWorld (files w) (requests w ++ [c]) (service w) in
  match service w (length (requests w)) with
  | None => (Ok tt, w')
  | Some e => (Raise e, w')
  end.

(** [Path.stat().st_size if Path.exists() else 0]. *)
Definition size_or_zero (w : World) (path : string) : nat :=
  match files w !! path with
  | Some content => length content
  | None => 0%nat
  end.

(** [Path.unlink()], [missing_ok=False]. *)
Definition unlink (path : string) (w : World) : result unit * World :=
  match files w !! path with
  | Some _ => (Ok tt, mkWorld (delete path (files w)) (requests w) (service w))
  | None => (Raise FileNotFoundError, w)
  end.

(** The attribute lookup [config['client'].method]. *)
Definition client_of (config : gmap string value) : result value :=
  c ← subscript config "client";
  match c with
  | VClient _ _ => Ok c
  | _ => Raise AttributeError
  end.

Section Upload.

(** [str()] of floats, containers and objects, which [format] needs for
    values that are not strings. *)
Variable repr_other : value -> string.
(** [gzip.compress], [lzma.compress]. *)
Variables gzip lzma : bytes -> bytes.
(** [json.dumps(record, ensure_ascii=False).encode('utf-8')]. *)
Variable json_dumps : value -> bytes.
(** The exception the built-in [open] raises for a name that it cannot open
    for reading: [FileNotFoundError], another [OSError] such as the one for
    a name that is too long, [ValueError] for a name with a null byte. *)
Variable open_error : string -> exn.

(** [f"{v}"] and ['{}'.format(v)]. *)
Definition format (v : value) : string :=
  match v with
  | VStr s => s
  | VNone => "None"
  | VBool true => "True"
  | VBool false => "False"
  | VInt n => pretty n
  | _ => repr_other v
  end.

Definition config_compression (config_default : gmap string value)
  : result (gmap string value) :=
  let config := config_default ∪ {["compression" := VStr "none"]} in
  if String.eqb (lower (format (get config "compression"))) "gzip" then
    let config := <["open_func" := VFunc gzip_compress]> config in
    template ← subscript config "path_template";
    template ← str_add template ".gz";
    Ok (<["path_template" := template]> config)
  else if String.eqb (lower (format (get config "compression"))) "lzma" then
    let config := <["open_func" := VFunc lzma_compress]> config in
    template ← subscript config "path_template";
    template ← str_add template ".xz";
    Ok (<["path_template" := template]> config)
  else if String.eqb (lower (format (get config "compression"))) ""
          || String.eqb (lower (format (get config "compression"))) "none" then
    Ok (<["open_func" := VFunc builtin_open]> config)
  else
    Raise (NotImplementedError
             ("Compression type '" +:+ lower (format (get config "compression"))
              +:+ "' is not supported. Expected: 'none', 'gzip', or 'lzma'")).

(** The description and the arguments dictionary. *)
Definition get_encryption_args (config : gmap string value)
  : result (string * list (string * value)) :=
  ty ← str_lower (get_default config "encryption_type" (VStr "none"));
  if String.eqb ty "none" then Ok ("", [])
  else
    ty ← str_lower (get_default config "encryption_type" (VStr "none"));
    if String.eqb ty "kms" then
      if truthy (get config "encryption_key") then
        Ok (" using KMS encryption key ID '"
              +:+ format (get config "encryption_key") +:+ "'",
            [("ExtraArgs",
              VDict [("ServerSideEncryption", VStr "aws:kms");
                     ("SSEKMSKeyId", get config "encryption_key")])])
      else
        Ok (" using default KMS encryption",
            [("ExtraArgs", VDict [("ServerSideEncryption", VStr "aws:kms")])])
    else
      Raise (NotImplementedError
               ("Encryption type '" +:+ format (get config "encryption_type")
                +:+ "' is not supported. Expected: 'none' or 'KMS'")).

(** Calling [config['open_func']] on a bytes object.  The built-in [open]
    takes it for a file name and returns a file object, which the client
    accepts as a body. *)
Definition call_open_func (f : value) (data : bytes) (w : World) : result body :=
  match f with
  | VFunc gzip_compress => Ok (BytesBody (gzip data))
  | VFunc lzma_compress => Ok (BytesBody (lzma data))
  | VFunc builtin_open =>
      match files w !! string_of_list_byte data with
      | Some _ => Ok (FileBody (string_of_list_byte data))
      | None => Raise (open_error (string_of_list_byte data))
      end
  | _ => Raise TypeError
  end.

(** [b''.join(json.dumps(record).encode('utf-8') + b'\n' for record in ...)]. *)
Definition join_lines (stream_data : list value) : bytes :=
  concat (map (fun record => json_dumps record ++ [newline]) stream_data).

Definition lift {A} (r : result A) (w : World) (k : A -> result unit * World)
  : result unit * World :=
  match r with
  | Ok a => k a
  | Raise e => (Raise e, w)
  end.

(** The body of [put_object], under its decorator. *)
Definition put_object_body (config : gmap string value) (file_metadata : FileMetadata)
    (stream_data : list value) (w : World) : result unit * World :=
  lift (get_encryption_args config) w (fun '(encryption_desc, encryption_args) =>
  lift (client_of config) w (fun client =>
  lift (subscript config "open_func") w (fun open_func =>
  lift (call_open_func open_func (join_lines stream_data) w) w (fun Body =>
  send (PutObject Body (get config "s3_bucket") (relative_path file_metadata)
          (default (VDict []) (assoc_last "ExtraArgs" encryption_args))) w)))).

(** The body of [upload_file], under its decorator. *)
Definition upload_file_body (config : gmap string value) (file_metadata : FileMetadata)
    (w : World) : result unit * World :=
  if negb (truthy (get_default config "local" (VBool false)))
     && (0 <? size_or_zero w (absolute_path file_metadata))%nat then
    lift (get_encryption_args config) w (fun '(encryption_desc, encryption_args) =>
    lift (client_of config) w (fun client =>
    let '(r, w) :=
      send (UploadFile (absolute_path file_metadata) (get config "s3_bucket")
              (relative_path file_metadata)
              (assoc_last "ExtraArgs" encryption_args)) w in
    lift r w (fun _ =>
    if truthy (get_default config "remove_file" (VBool true)) then
      unlink (absolute_path file_metadata) w
    else (Ok tt, w))))
  else (Ok tt, w).

(** [put_object] and [upload_file] as the module exports them. *)
Definition put_object (draws : nat -> Q) (config : gmap string value)
    (file_metadata : FileMetadata) (stream_data : list value)
  : World -> Retried World unit :=
  _retry_pattern draws (put_object_body config file_metadata stream_data).

Definition upload_file (draws : nat -> Q) (config : gmap string value)
    (file_metadata : FileMetadata) : World -> Retried World unit :=
  _retry_pattern draws (upload_file_body config file_metadata).

(** The call [upload_file] makes on the client. *)
Definition upload_call (config : gmap string value) (fm : FileMetadata) : s3_call :=
  UploadFile (absolute_path fm) (get config "s3_bucket") (relative_path fm)
    (match get_encryption_args config with
     | Ok (_, args) => assoc_last "ExtraArgs" args
     | Raise _ => None
     end).

(** [upload_file] has something to upload: [local] is false and the local
    file exists with a size above zero. *)
Definition uploading (config : gmap string value) (fm : FileMetadata) (w : World)
  : Prop :=
  truthy (get_default config "local" (VBool false)) = false
  ∧ (0 < size_or_zero w (absolute_path fm))%nat.

End Upload.

(** ** WrappedTextIO *)

Record WrappedTextIO : Type := mkWrappedTextIO {
  hasMore : bool;
  io_buffer : WrappedIoBuffer
}.

Definition WrappedTextIO_init (p : Process) (flushSeconds : value) : WrappedTextIO :=
  mkWrappedTextIO true (WrappedIoBuffer_init p flushSeconds).

Definition WrappedTextIO_stoppedState (self : WrappedTextIO) : bool :=
  stoppedState (io_buffer self).

(** ** The main loop *)

(** What one pass of the loop of [main] leaves behind: the configuration
    handed to the loader, the process state when the [WrappedTextIO] was
    built and after the loader ran, the interval and the first buffer of its
    [WrappedIoBuffer], the bytes each [read] returned, [stoppedState()] and
    the files the loader closed. *)
Record Segment : Type := mkSegment {
  seg_config : gmap string value;
  seg_before : Process;
  seg_flushSeconds : value;
  seg_seed : bytes;
  seg_chunks : list bytes;
  seg_stopped : bool;
  seg_files : list FileMetadata;
  seg_after : Process
}.

(** The input bytes consumed while the segment ran, and their lines. *)
Definition seg_consumed (s : Segment) : bytes :=
  take (length (stdin (seg_before s)) - length (stdin (seg_after s)))
       (stdin (seg_before s)).

Definition seg_lines (s : Segment) : list bytes := split_lines (seg_consumed s).

(** [round(x)] of a float: to the nearest integer, ties to the even one. *)
Definition py_round (x : Q) : Z :=
  let f := Qfloor x in
  let r := (x - inject_Z f)%Q in
  if Qeq_bool r (1 # 2) then (if Z.even f then f else f + 1)
  else if Qle_bool r (1 # 2) then f else f + 1.

(** [environ.get(key, None)]. *)
Definition environ_get (environ : gmap string string) (key : string) : value :=
  match environ !! key with
  | Some s => VStr s
  | None => VNone
  end.

(** The proxy settings [main] computes. *)
Definition proxy_config (config : gmap string value) (environ : gmap string string)
  : value :=
  let proxy_config := VDict [] in
  let proxy_config :=
    if truthy (get config "proxies") then get config "proxies" else proxy_config in
  let proxy_config :=
    if truthy (environ_get environ "HTTP_PROXY")
    then VDict [("http", environ_get environ "HTTP_PROXY");
                ("https", environ_get environ "HTTPS_PROXY")]
    else proxy_config in
  proxy_config.

(** [ls] are the lines successive [readline] calls take from [inp],
    leaving [rest]. *)
Fixpoint lines_from (ls : list bytes) (inp rest : bytes) : Prop :=
  match ls with
  | [] => inp = rest
  | l :: ls' => l ≠ [] ∧ ∃ r, readline inp = (l, r) ∧ lines_from ls' r rest
  end.

(** The sizes a reader asks for: a positive number of bytes, or [-1]. *)
Definition valid_size (size : Z) : Prop := size = -1 ∨ 0 < size.

(** The decorated function fails [k] times with a [ClientError], the last of
    them with [code], leaving the state [st']. *)
Fixpoint fails {S A} (k : nat) (target : S -> result A * S) (st : S)
    (code : string) (st' : S) : Prop :=
  match k with
  | O => False
  | 1%nat => target st = (Raise (ClientError code), st')
  | Datatypes.S k' =>
      ∃ c st1, target st = (Raise (ClientError c), st1) ∧ fails k' target st1 code st'
  end.

(** The decorated function fails [k] times with a [ClientError] and then
    returns [a], leaving the state [st']. *)
Fixpoint fails_then {S A} (k : nat) (target : S -> result A * S) (st : S)
    (a : A) (st' : S) : Prop :=
  match k with
  | O => target st = (Ok a, st')
  | Datatypes.S k' =>
      ∃ c st1, target st = (Raise (ClientError c), st1) ∧ fails_then k' target st1 a st'
  end.

(** The interval [main] gives the segmenter:
    [config.get('flush_seconds') if config.get('flush_seconds') else 10*60]. *)
Definition flush_interval (config : gmap string value) : value :=
  if truthy (get config "flush_seconds") then get config "flush_seconds"
  else VInt (10 * 60).

(** The client [main] builds from a session:
    [.client('s3', **endpoint, config=Config(proxies=proxy_config))]. *)
Definition new_client (config : gmap string value) (environ : gmap string string)
  : value :=
  VClient (if truthy (get config "aws_endpoint_url")
           then get config "aws_endpoint_url" else VNone)
          (proxy_config config environ).

(** The configuration [main] hands to the loader:
    [config | {'client': ..., 'executor': ..., 'add_metadata_columns': True}]. *)
Definition loader_config (client : value) (config : gmap string value)
  : gmap string value :=
  {[ "client" := client; "executor" := VExecutor;
     "add_metadata_columns" := VBool true ]} ∪ config.

Section Main.

Variable json_loads : bytes -> result value.
Variable repr_other : value -> string.
Variable environ : gmap string string.
(** [config_file] of module [.file], which resolves the naming template
    and the defaults; it is not in the sources at hand. *)
Variable config_file : gmap string value -> gmap string value.
(** The outcome of [create_session(config)], which resolves credentials
    with the identity service. *)
Variable create_session : gmap string value -> result unit.
(** The naming engine behind the loader, which turns the template of the
    configuration into the destination of a payload. *)
Variable name_file : gmap string value -> list bytes -> FileMetadata.
(** The target count of a file of the loader. *)
Variable file_count : nat.
(** The size the loader asks [read] for. *)
Variable size : Z.

(** The line is a message of the given type. *)
Definition line_is (ty : string) (l : bytes) : bool :=
  match json_loads l with
  | Ok line =>
      match getitem line "type" with
      | Ok t => eq_str t ty
      | Raise _ => false
      end
  | Raise _ => false
  end.

(** Modelled from the spec: [Loader.run] of module [.stream], which is not
    in the sources at hand.  The batching component pulls bytes from the
    segmenter until it closes: it calls [read(size)] until the empty bytes
    object comes back, and keeps what it was given. *)
Fixpoint drain (fuel : nat) (self : WrappedIoBuffer) (p : Process)
  : option (result (list bytes * WrappedIoBuffer * Process)) :=
  match fuel with
  | O => None
  | S fuel' =>
      match read json_loads self size p with
      | Raise e => Some (Raise e)
      | Ok ([], self', p') => Some (Ok ([], self', p'))
      | Ok (data, self', p') =>
          match drain fuel' self' p' with
          | Some (Ok (chunks, self'', p'')) => Some (Ok (data :: chunks, self'', p''))
          | other => other
          end
      end
  end.

Definition Loader_run (curLines : WrappedTextIO) (p : Process)
  : option (result (list bytes * WrappedIoBuffer * Process)) :=
  drain (S (length (buffer (io_buffer curLines)) + length (stdin p)))
        (io_buffer curLines) p.

(** Modelled from the spec: the files of the batching component, the
    loader of module [.stream], which is not in the sources at hand.  It
    reconstructs whole messages, groups the RECORD messages into file-sized
    payloads, and closes a file, invoking the write callback, when the
    file has the target count of messages and, for the last one, when the
    segment ends.  [open_file] holds the messages of the file being
    filled. *)
Fixpoint file_payloads (open_file : list bytes) (records : list bytes)
  : list (list bytes) :=
  match records with
  | [] => match open_file with [] => [] | _ :: _ => [open_file] end
  | r :: rest =>
      if (file_count <=? length (open_file ++ [r]))%nat
      then (open_file ++ [r]) :: file_payloads [] rest
      else file_payloads (open_file ++ [r]) rest
  end.

(** Modelled from the spec: the destination metadata of the files the
    loader closes for the bytes it was delivered, one for each payload,
    in the order of closing. *)
Definition Loader_files (config : gmap string value) (delivered : bytes)
  : list FileMetadata :=
  map (name_file config)
      (file_payloads [] (List.filter (line_is "RECORD") (split_lines delivered))).

(** The [while True] loop of [main]; [fuel] bounds the number of passes.
    It yields the segments completed and how the loop ended: by [break],
    or by the exception that left it. *)
Fixpoint main_loop (fuel : nat) (curConfig : gmap string value) (lastTime : Z)
    (client : option value) (p : Process)
  : option (list Segment * result unit) :=
  match fuel with
  | O => None
  | S fuel' =>
      let '(t, p) := time_time p in
      let curTime := py_round t in
      (* [if curTime == lastTime: sleep(1)]: [sleep] is [asyncio.sleep];
         the call builds a coroutine that nothing awaits. *)
      let lastTime := curTime in
      match config_compression repr_other (config_file curConfig) with
      | Raise e => Some ([], Raise e)
      | Ok config =>
          let curLines := WrappedTextIO_init p (flush_interval config) in
          let created :=
            match client with
            | Some c => Ok c
            | None => _ ← create_session config; Ok (new_client config environ)
            end in
          match created with
          | Raise e => Some ([], Raise e)
          | Ok c =>
              match Loader_run curLines p with
              | None => None
              | Some (Raise e) => Some ([], Raise e)
              | Some (Ok (chunks, self, p')) =>
                  let seg :=
                    mkSegment (loader_config c config) p (flush_interval config)
                      (buffer (io_buffer curLines)) chunks (stoppedState self)
                      (Loader_files (loader_config c config) (concat chunks)) p' in
                  if negb (stoppedState self) then Some ([seg], Ok tt)
                  else
                    match main_loop fuel' curConfig lastTime (Some c) p' with
                    | Some (segs, r) => Some (seg :: segs, r)
                    | None => None
                    end
              end
          end
      end
  end.

(** [main] after the configuration is loaded: [lastTime = 0], no client. *)
Definition main (curConfig : gmap string value) (p : Process)
  : option (list Segment * result unit) :=
  main_loop (S (length (stdin p))) curConfig 0 None p.

(** *** Vocabulary of the statements *)

(** [readMore] takes the line without raising under the given interval. *)
Definition line_ok (flushSeconds : value) (l : bytes) : bool :=
  match json_loads l with
  | Ok line =>
      match getitem line "type" with
      | Ok t => if eq_str t "STATE" then is_ok (float_gt 0 flushSeconds) else true
      | Raise _ => false
      end
  | Raise _ => false
  end.

End Main.

(** ** The write callback *)

Section Callback.

Variable repr_other : value -> string.
Variable draws : nat -> Q.




End Callback.

(** ** config_s3 *)

Fixpoint starts_with (pat s : string) : bool :=
  match pat, s with
  | EmptyString, _ => true
  | String a pat', String c s' => Ascii.eqb a c && starts_with pat' s'
  | String _ _, EmptyString => false
  end.

(** [s.replace(old, new)] for a non-empty [old]: the occurrences of [old]
    are found from left to right and do not overlap.  [skip] counts the
    characters of an occurrence still to pass over. *)
Fixpoint replace_from (old new : string) (skip : nat) (s : string) : string :=
  match s with
  | EmptyString => EmptyString
  | String c s' =>
      match skip with
      | S k => replace_from old new k s'
      | O =>
          if starts_with old s
          then new +:+ replace_from old new (String.length old - 1) s'
          else String c (replace_from old new 0 s')
      end
  end.

Definition replace (old new s : string) : string := replace_from old new 0 s.

(** The string has no opening brace. *)
Fixpoint no_brace (s : string) : bool :=
  match s with
  | EmptyString => true
  | String c s' => negb (Ascii.eqb "{"%char c) && no_brace s'
  end.

(** The default of the parameter [datetime_format]. *)
Record DatetimeFormat : Type := mkDatetimeFormat {
  date_time_format : string;
  date_format : string
}.

Definition datetime_format_default : DatetimeFormat :=
  mkDatetimeFormat ":%Y%m%dT%H%M%S" ":%Y%m%d".

(** The rewriting of a deprecated [naming_convention]. *)
Definition convert_naming (datetime_format : DatetimeFormat) (s : string) : string :=
  replace "{date}" ("{date_time" +:+ date_format datetime_format +:+ "}")
    (replace "{timestamp}" ("{date_time" +:+ date_time_format datetime_format +:+ "}")
       (replace "{date:" "{date_time:"
          (replace "{timestamp:" "{date_time:" s))).

Definition config_s3 (datetime_format : DatetimeFormat)
    (config_default : gmap string value) : result (gmap string value) :=
  let config_default :=
    match config_default !! "temp_dir" with
    | Some v => <["work_dir" := v]> (delete "temp_dir" config_default)
    | None => config_default
    end in
  config_default ←
    match config_default !! "naming_convention" with
    | Some (VStr s) =>
        Ok (<["path_template" := VStr (convert_naming datetime_format s)]>
              (delete "naming_convention" config_default))
    | Some _ => Raise AttributeError
    | None => Ok config_default
    end;
  match config_default !! "s3_bucket" with
  | Some _ => Ok config_default
  | None => Raise (OtherError "Config is missing required settings: {'s3_bucket'}")
  end.

(** ** create_session *)

(** A [boto3] session, by the arguments it is constructed with. *)
Inductive Session : Type :=
| SessionKeys (aws_access_key_id aws_secret_access_key aws_session_token : value)
| SessionProfile (profile_name : value).

(** [x or y]. *)
Definition py_or (x y : value) : value := if truthy x then x else y.

(** [s.split('/', 1)[1]]: what follows the first slash; [IndexError] when
    there is none. *)
Fixpoint after_slash (s : string) : result string :=
  match s with
  | EmptyString => Raise (OtherError "IndexError")
  | String c s' => if Ascii.eqb c "/" then Ok s' else after_slash s'
  end.

(** The security token service: the [assume_role] calls made so far, each
    with the session and the endpoint of its client, the role and the
    session name; and how the k-th of them ends, with the three temporary
    credentials or with an exception. *)
Record Sts : Type := mkSts {
  sts_calls : list (Session * value * string * string);
  sts_answers : nat -> result (value * value * value)
}.

Definition assume_role (session : Session) (endpoint : value)
    (RoleArn RoleSessionName : string) (w : Sts) : result (value * value * value) * Sts :=
  (sts_answers w (length (sts_calls w)),
   mkSts (sts_calls w ++ [(session, endpoint, RoleArn, RoleSessionName)]) (sts_answers w)).

Section Session.

Variable repr_other : value -> string.
Variable environ : gmap string string.

(** The body of [create_session], under its decorator. *)
Definition create_session_body (config : gmap string value) (w : Sts)
  : result Session * Sts :=
  let aws_access_key_id :=
    py_or (get config "aws_access_key_id") (environ_get environ "AWS_ACCESS_KEY_ID") in
  let aws_secret_access_key :=
    py_or (get config "aws_secret_access_key")
          (environ_get environ "AWS_SECRET_ACCESS_KEY") in
  let aws_session_token :=
    py_or (get config "aws_session_token") (environ_get environ "AWS_SESSION_TOKEN") in
  let aws_profile := py_or (get config "aws_profile") (environ_get environ "AWS_PROFILE") in
  let aws_endpoint_url := get config "aws_endpoint_url" in
  let role_arn := get config "role_arn" in
  let endpoint := if truthy aws_endpoint_url then aws_endpoint_url else VNone in
  let aws_session :=
    if truthy aws_access_key_id && truthy aws_secret_access_key
    then SessionKeys aws_access_key_id aws_secret_access_key aws_session_token
    else SessionProfile aws_profile in
  if truthy role_arn then
    match role_arn with
    | VStr arn =>
        match after_slash arn with
        | Raise e => (Raise e, w)
        | Ok role_name =>
            let '(resp, w) :=
              assume_role aws_session endpoint arn
                ("role-name=" +:+ role_name +:+ "-profile="
                 +:+ format repr_other aws_profile) w in
            match resp with
            | Raise e => (Raise e, w)
            | Ok (key, secret, token) => (Ok (SessionKeys key secret token), w)
            end
        end
    | _ => (Raise AttributeError, w)
    end
  else (Ok aws_session, w).


(** [create_session] as the module exports it. *)
Definition create_session (draws : nat -> Q) (config : gmap string value)
  : Sts -> Retried Sts Session :=
  _retry_pattern draws (create_session_body config).

End Session.

(** ** Invariants of a segment and of a run *)

Section Invariants.

Variable json_loads : bytes -> result value.
Variable environ : gmap string string.
Variable name_file : gmap string value -> list bytes -> FileMetadata.
Variable file_count : nat.
Variable size : Z.

(** What holds between the construction of a [WrappedIoBuffer] in the
    process state [p0] and any later moment of its segment: [out] are the
    bytes [read] has returned so far, [ls] the lines [readMore] has taken
    from the input. *)
Record seg_inv (p0 : Process) (flush : value) (out : bytes)
    (self : WrappedIoBuffer) (p : Process) (ls : list bytes) : Prop := mk_seg_inv {
  inv_lines : lines_from ls (stdin p0) (stdin p);
  inv_bytes : curSchemaBuffer p0 ++ concat ls = out ++ buffer self;
  inv_schema : curSchemaBuffer p
               = curSchemaBuffer p0 ++ concat (List.filter (line_is json_loads "SCHEMA") ls);
  inv_flush : flushSeconds self = flush;
  inv_now : now p = now p0;
  inv_ticks : (ticks p0 ≤ ticks p)%nat;
  inv_ok : Forall (λ l, line_ok json_loads flush l = true) ls;
  inv_stopped :
    stoppedState self = true →
    empty self = true ∧
    ∃ ls' l f k, ls = ls' ++ [l] ∧ line_is json_loads "STATE" l = true
                 ∧ as_number flush = Some f
                 ∧ (ticks p0 ≤ k < ticks p)%nat
                 ∧ lastFlushTime p = now p0 k
                 ∧ (f < lastFlushTime p - lastFlushTime p0)%Q;
  inv_running :
    stoppedState self = false →
    lastFlushTime p = lastFlushTime p0 ∧ (empty self = true → stdin p = [])
}.

(** What a completed segment guarantees, [ls] being the lines it read. *)
Definition seg_spec (s : Segment) (ls : list bytes) : Prop :=
  ∃ self,
    seg_inv (seg_before s) (seg_flushSeconds s) (concat (seg_chunks s))
      self (seg_after s) ls
    ∧ stoppedState self = seg_stopped s
    ∧ seg_seed s = curSchemaBuffer (seg_before s)
    ∧ (valid_size size → buffer self = [] ∧ empty self = true).

Fixpoint run_spec (p : Process) (segs : list Segment) : Prop :=
  match segs with
  | [] => True
  | s :: rest =>
      seg_before s = snd (time_time p)
      ∧ (∃ ls, seg_spec s ls)
      ∧ (rest ≠ [] → seg_stopped s = true)
      ∧ run_spec (seg_after s) rest
  end.

(** The client a pass of the loop works with. *)
Definition client_in (config : gmap string value) (client : option value) : value :=
  match client with
  | Some c => c
  | None => new_client config environ
  end.

Definition seg_static (config : gmap string value) (client : option value)
    (s : Segment) : Prop :=
  seg_flushSeconds s = flush_interval config
  ∧ seg_config s = loader_config (client_in config client) config
  ∧ seg_files s
    = Loader_files json_loads name_file file_count (seg_config s)
        (concat (seg_chunks s)).

End Invariants.

(** ** A JSON decoder for the examples

    The theorems below hold for any [json_loads].  To run the model on
    concrete input they are instantiated with this decoder of the JSON that
    has objects, arrays, strings with the two-character escapes, integers,
    decimal fractions and the three literals, all in ASCII; everything else
    is a [JSONDecodeError] here. *)

Module Json.

Local Open Scope byte_scope.

Definition is_ws (c : byte) : bool :=
  match c with
  | " " | "009" | "010" | "013" => true
  | _ => false
  end.

Fixpoint skip_ws (s : bytes) : bytes :=
  match s with
  | c :: r => if is_ws c then skip_ws r else s
  | [] => []
  end.

Definition digit (c : byte) : option Z :=
  let n := Z.of_N (Byte.to_N c) in
  if (48 <=? n) && (n <=? 57) then Some (n - 48) else None.

(** The digits at the head of [s]: their value, their number, the rest. *)
Fixpoint digits (acc : Z) (count : nat) (s : bytes) : Z * nat * bytes :=
  match s with
  | c :: r =>
      match digit c with
      | Some d => digits (10 * acc + d) (S count) r
      | None => (acc, count, s)
      end
  | [] => (acc, count, s)
  end.

(** A number: an optional minus sign is already taken; digits without a
    leading zero, then an optional fraction. *)
Definition number (negative : bool) (s : bytes) : option (value * bytes) :=
  let sign := if negative then -1 else 1 in
  let '(n, count, r) := digits 0 0 s in
  if (count =? 0)%nat then None
  else if ((1 <? count)%nat && match s with c :: _ => byte_eqb c "0" | [] => false end)
  then None
  else
    match r with
    | [] => Some (VInt (sign * n), r)
    | c :: r' =>
        if byte_eqb c "." then
          let '(m, count', r'') := digits 0 0 r' in
          if (count' =? 0)%nat then None
          else Some (VFloat (inject_Z sign
                             * (inject_Z n + inject_Z m / inject_Z (10 ^ Z.of_nat count')))%Q,
                     r'')
        else if byte_eqb c "e" || byte_eqb c "E" then None
        else Some (VInt (sign * n), r)
    end.

Definition unescape (c : byte) : option byte :=
  match c with
  | "034" => Some "034"
  | "\" => Some "\"
  | "/" => Some "/"
  | "b" => Some "008"
  | "f" => Some "012"
  | "n" => Some "010"
  | "r" => Some "013"
  | "t" => Some "009"
  | _ => None
  end.

(** The characters of a string, after its opening quote. *)
Fixpoint chars (s : bytes) : option (list byte * bytes) :=
  match s with
  | [] => None
  | "034" :: r => Some ([], r)
  | "\" :: e :: r =>
      c ← unescape e; '(cs, r') ← chars r; Some (c :: cs, r')
  | "\" :: [] => None
  | c :: r =>
      if (Byte.to_N c <? 32)%N then None
      else '(cs, r') ← chars r; Some (c :: cs, r')
  end.

Definition str (s : bytes) : option (string * bytes) :=
  '(cs, r) ← chars s; Some (string_of_list_byte cs, r).

Fixpoint parse_value (fuel : nat) (s : bytes) : option (value * bytes) :=
  match fuel with
  | O => None
  | S fuel' =>
      match skip_ws s with
      | "{" :: r =>
          match skip_ws r with
          | "}" :: r' => Some (VDict [], r')
          | r' => '(d, r'') ← parse_members fuel' r'; Some (VDict d, r'')
          end
      | "[" :: r =>
          match skip_ws r with
          | "]" :: r' => Some (VList [], r')
          | r' => '(l, r'') ← parse_elements fuel' r'; Some (VList l, r'')
          end
      | "034" :: r => '(x, r') ← str r; Some (VStr x, r')
      | "t" :: "r" :: "u" :: "e" :: r => Some (VBool true, r)
      | "f" :: "a" :: "l" :: "s" :: "e" :: r => Some (VBool false, r)
      | "n" :: "u" :: "l" :: "l" :: r => Some (VNone, r)
      | "-" :: r => number true r
      | r => number false r
      end
  end
with parse_members (fuel : nat) (s : bytes) : option (list (string * value) * bytes) :=
  match fuel with
  | O => None
  | S fuel' =>
      match skip_ws s with
      | "034" :: r =>
          '(k, r) ← str r;
          match skip_ws r with
          | ":" :: r =>
              '(v, r) ← parse_value fuel' r;
              match skip_ws r with
              | "," :: r => '(d, r) ← parse_members fuel' r; Some ((k, v) :: d, r)
              | "}" :: r => Some ([(k, v)], r)
              | _ => None
              end
          | _ => None
          end
      | _ => None
      end
  end
with parse_elements (fuel : nat) (s : bytes) : option (list value * bytes) :=
  match fuel with
  | O => None
  | S fuel' =>
      '(v, r) ← parse_value fuel' s;
      match skip_ws r with
      | "," :: r => '(l, r) ← parse_elements fuel' r; Some (v :: l, r)
      | "]" :: r => Some ([v], r)
      | _ => None
      end
  end.

Definition loads (data : bytes) : result value :=
  match parse_value (S (length data)) data with
  | Some (v, r) =>
      match skip_ws r with
      | [] => Ok v
      | _ => Raise JSONDecodeError
      end
  | None => Raise JSONDecodeError
  end.

End Json.

(** ** Inputs for the examples *)

Module Example.

(** One line of JSON text, written with ' for the double quote. *)
Definition jsonl (s : string) : bytes :=
  map (fun c => if byte_eqb c "'"%byte then "034"%byte else c) (list_byte_of_string s)
  ++ [newline].

Definition schema_line : bytes := jsonl "{'type':'SCHEMA','stream':'a','schema':{}}".
Definition record_line : bytes := jsonl "{'type':'RECORD','stream':'a','record':{'x':1}}".
Definition state_line : bytes := jsonl "{'type':'STATE','value':{}}".

(** The three-line input of the scenario. *)
Definition scenario : bytes := schema_line ++ record_line ++ state_line.

(** A clock that gives the listed readings, then the last of them. *)
Definition clock (readings : list Q) (k : nat) : Q :=
  nth k readings (List.last readings 0%Q).

Definition repr_other (v : value) : string := "<object>".
Definition config_file (config : gmap string value) : gmap string value := config.
Definition create_session (config : gmap string value) : result unit := Ok tt.
Definition json_dumps (record : value) : bytes := b (format repr_other record).

(** Two codecs that can be undone, to stand for [gzip] and [lzma]. *)
Definition tag (x : bytes) : bytes := "031"%byte :: x.
Definition untag (x : bytes) : bytes := tl x.
(** A naming engine that numbers nothing and expands nothing: one local
    file, and the template as the key. *)
Definition name_file (config : gmap string value) (payload : list bytes)
  : FileMetadata :=
  mkFileMetadata "/tmp/batch.json" (format repr_other (get config "path_template")).
Definition file_count : nat := 1000.
Definition open_error (name : string) : exn := FileNotFoundError.

Definition config : gmap string value :=
  {[ "s3_bucket" := VStr "bucket"; "compression" := VStr "none";
     "flush_seconds" := VInt 0; "path_template" := VStr "{date_time}.json" ]}.

(** A segmenter at the head of the scenario, with the default interval. *)
Definition process : Process := import_module scenario (clock [0%Q]).
Definition segmenter : WrappedIoBuffer := WrappedIoBuffer_init process (VInt 600).

Definition main (environ : gmap string string) (size : Z)
    (curConfig : gmap string value) (input : bytes) (readings : list Q)
  : option (list Segment * result unit) :=
  main Json.loads repr_other environ config_file create_session name_file file_count
    size curConfig (import_module input (clock readings)).

End Example.

(** * Lines *)

Lemma readline_app inp l r : readline inp = (l, r) → inp = l ++ r.
Proof.
  revert l r; induction inp as [|c rest IH]; intros l r H; simpl in H.
  - by inversion H.
  - destruct (byte_eqb c newline).
    + by inversion H.
    + destruct (readline rest) as [l' r'] eqn:E. inversion H; subst.
      simpl. f_equal. by apply IH.
Qed.

Lemma readline_nonempty inp l r : readline inp = (l, r) → inp ≠ [] → l ≠ [].
Proof.
  destruct inp as [|c rest]; [done|]. simpl. intros H _.
  destruct (byte_eqb c newline); [by inversion H|].
  destruct (readline rest). by inversion H.
Qed.

Lemma readline_empty inp r : readline inp = ([], r) → inp = [] ∧ r = [].
Proof.
  destruct inp as [|c rest]; simpl; intros H.
  - by inversion H.
  - destruct (byte_eqb c newline); [by inversion H|].
    destruct (readline rest). by inversion H.
Qed.

Lemma split_lines_readline inp l r :
  readline inp = (l, r) → inp ≠ [] → split_lines inp = l :: split_lines r.
Proof.
  revert l r; induction inp as [|c rest IH]; intros l r H Hne; [done|].
  simpl in *. destruct (byte_eqb c newline).
  - by inversion H.
  - destruct (readline rest) as [l' r'] eqn:E. inversion H; subst.
    destruct rest as [|c' rest'].
    + simpl in E. by inversion E.
    + by rewrite (IH l' r).
Qed.

Lemma split_lines_line_app inp l r x :
  readline inp = (l, r) → l ≠ [] → r ≠ [] ∨ x = [] →
  split_lines (l ++ x) = l :: split_lines x.
Proof.
  intros H Hl [Hr| ->].
  - revert l r H Hl Hr; induction inp as [|c rest IH]; intros l r H Hl Hr.
    + simpl in H. by inversion H.
    + simpl in H. destruct (byte_eqb c newline) eqn:Ec.
      * inversion H; subst. simpl. by rewrite Ec.
      * destruct (readline rest) as [l' r'] eqn:E. inversion H; subst.
        assert (l' ≠ []) as Hl'.
        { eapply readline_nonempty; [done|]. intros ->. simpl in E. by inversion E. }
        simpl. rewrite Ec. by rewrite (IH l' r).
  - rewrite app_nil_r. pose proof (readline_app _ _ _ H) as Happ.
    destruct r as [|c r].
    + rewrite app_nil_r in Happ. subst inp.
      rewrite (split_lines_readline _ _ _ H); [done|]. done.
    + assert (readline l = (l, [])) as Hl2.
      { clear Happ. revert l H Hl. induction inp as [|c0 rest IH]; intros l H Hl.
        - simpl in H. by inversion H.
        - simpl in H. destruct (byte_eqb c0 newline) eqn:Ec.
          + inversion H; subst. simpl. by rewrite Ec.
          + destruct (readline rest) as [l' r'] eqn:E. inversion H; subst.
            simpl. rewrite Ec. destruct l' as [|c1 l'].
            * done.
            * by rewrite (IH (c1 :: l')). }
      by rewrite (split_lines_readline _ _ _ Hl2).
Qed.

Lemma concat_split_lines x : concat (split_lines x) = x.
Proof.
  induction x as [|c rest IH]; [done|]. simpl.
  destruct (byte_eqb c newline).
  - simpl. by rewrite IH.
  - destruct (split_lines rest) as [|l ls]; simpl in *; by rewrite <- IH.
Qed.

Lemma lines_from_app ls inp rest :
  lines_from ls inp rest → inp = concat ls ++ rest.
Proof.
  revert inp; induction ls as [|l ls IH]; intros inp; simpl.
  - done.
  - intros [_ (r & Hr & Hls)]. rewrite <- app_assoc, <- (IH r Hls).
    by apply readline_app.
Qed.

Lemma lines_from_split ls inp rest :
  lines_from ls inp rest → split_lines inp = ls ++ split_lines rest.
Proof.
  revert inp; induction ls as [|l ls IH]; intros inp; simpl.
  - by intros ->.
  - intros [Hl (r & Hr & Hls)]. rewrite <- (IH r Hls).
    apply split_lines_readline; [done|]. intros ->. simpl in Hr. by inversion Hr.
Qed.

Lemma lines_from_concat ls inp rest :
  lines_from ls inp rest → split_lines (concat ls) = ls.
Proof.
  revert inp; induction ls as [|l ls IH]; intros inp; simpl; [done|].
  intros [Hl (r & Hr & Hls)].
  rewrite (split_lines_line_app inp l r); [|done|done|].
  - by rewrite (IH r).
  - destruct ls as [|l2 ls]; [by right|left].
    simpl in Hls. destruct Hls as [Hl2 (r2 & Hr2 & _)].
    intros ->. simpl in Hr2. by inversion Hr2.
Qed.

Lemma lines_from_snoc ls inp mid l rest :
  lines_from ls inp mid → readline mid = (l, rest) → l ≠ [] →
  lines_from (ls ++ [l]) inp rest.
Proof.
  revert inp; induction ls as [|l0 ls IH]; intros inp; simpl.
  - intros -> H Hl. eauto.
  - intros [Hl0 (r & Hr & Hls)] H Hl. split; [done|]. exists r. eauto.
Qed.

Lemma Qgtb_lt x y : Qgtb x y = true ↔ (y < x)%Q.
Proof.
  unfold Qgtb. rewrite negb_true_iff. split.
  - intros H. apply Qnot_le_lt. intros Hle. apply Qle_bool_iff in Hle. congruence.
  - intros H. destruct (Qle_bool x y) eqn:E; [|done].
    apply Qle_bool_iff in E. exfalso. by apply (Qlt_not_le _ _ H).
Qed.

Lemma float_gt_as_number x v late :
  float_gt x v = Ok late → ∃ f, as_number v = Some f ∧ late = Qgtb x f.
Proof. destruct v; simpl; intros H; inversion H; eauto. Qed.

Lemma float_gt_is_ok x y v : is_ok (float_gt x v) = is_ok (float_gt y v).
Proof. by destruct v. Qed.

Lemma slice_take_drop x n : slice_to x n ++ slice_from x n = x.
Proof. apply take_drop. Qed.

Lemma slice_to_nonempty (x : bytes) n : 0 < n → x ≠ [] → slice_to x n ≠ [].
Proof.
  intros Hn Hx. unfold slice_to, slice_index.
  destruct (n <? 0) eqn:E; [apply Z.ltb_lt in E; lia|].
  destruct x as [|c x]; [done|]. simpl.
  destruct (Z.to_nat n) eqn:En; [lia|]. done.
Qed.

Lemma valid_size_readSize size : valid_size size → 0 < (if size =? -1 then 8192 else size).
Proof. intros [->|H]; [done|]. destruct (size =? -1); lia. Qed.

Section SegmentProofs.
Variable json_loads : bytes -> result value.

Lemma seg_inv_init p0 flush :
  seg_inv json_loads p0 flush [] (WrappedIoBuffer_init p0 flush) p0 [].
Proof.
  constructor; simpl; try done.
  - by rewrite app_nil_r.
  - by rewrite app_nil_r.
Qed.

Lemma readMore_inv p0 flush out self p ls self' p' :
  seg_inv json_loads p0 flush out self p ls →
  readMore json_loads self p = Ok (self', p') →
  closed self' = closed self ∧
  (buffer self' = [] → closed self = false → empty self' = true) ∧
  ∃ ls', seg_inv json_loads p0 flush out self' p' ls'
         ∧ (length (buffer self') + length (stdin p')
            = length (buffer self) + length (stdin p))%nat.
Proof.
  intros I H. unfold readMore in H.
  destruct (empty self || closed self) eqn:Eec.
  { inversion H; subst. split; [done|]. split; [|by exists ls].
    intros _ Hc. rewrite Hc, orb_false_r in Eec. done. }
  apply orb_false_iff in Eec as [Ee Ec].
  destruct (readline (stdin p)) as [readData rest] eqn:Er.
  destruct readData as [|c0 l0].
  { inversion H; subst; clear H. split; [done|]. split; [done|].
    apply readline_empty in Er as [Hs ->].
    exists ls. split; [|by simpl; rewrite Hs].
    destruct I as [inv_lines0 inv_bytes0 inv_schema0 inv_flush0 inv_now0 inv_ticks0 inv_ok0 inv_stopped0 inv_running0]. constructor; simpl; try done.
    - by rewrite <- Hs.
    - intros Hst. destruct (inv_stopped0 Hst) as [? _]. congruence.
    - intros Hst. destruct (inv_running0 Hst) as [? _]. done. }
  set (l := c0 :: l0) in *.
  assert (l ≠ []) as Hl by done.
  assert (stoppedState self = false) as Hns.
  { destruct (stoppedState self) eqn:E; [|done].
    destruct (inv_stopped _ _ _ _ _ _ _ I E) as [? _]. congruence. }
  destruct (json_loads l) as [line|e] eqn:Ej; [|done]. simpl in H.
  destruct (getitem line "type") as [ty|e] eqn:Et; [|done]. simpl in H.
  assert (length (buffer self ++ l) + length rest
          = length (buffer self) + length (stdin p))%nat as Hlen.
  { rewrite (readline_app _ _ _ Er), !length_app. lia. }
  assert (∀ self1 p1,
    buffer self1 = buffer self → flushSeconds self1 = flushSeconds self →
    closed self1 = closed self →
    stdin p1 = rest → curSchemaBuffer p1 = curSchemaBuffer p →
    now p1 = now p → (ticks p ≤ ticks p1)%nat →
    line_ok json_loads flush l = true →
    (stoppedState self1 = true →
      empty self1 = true ∧
      ∃ f k, line_is json_loads "STATE" l = true ∧ as_number flush = Some f
        ∧ (ticks p ≤ k < ticks p1)%nat ∧ lastFlushTime p1 = now p k
        ∧ (f < lastFlushTime p1 - lastFlushTime p)%Q) →
    (stoppedState self1 = false → lastFlushTime p1 = lastFlushTime p ∧ empty self1 = false) →
    closed (set_buffer self1 (buffer self1 ++ l)) = closed self ∧
    (buffer (set_buffer self1 (buffer self1 ++ l)) = [] → closed self = false →
     empty (set_buffer self1 (buffer self1 ++ l)) = true) ∧
    ∃ ls', seg_inv json_loads p0 flush out (set_buffer self1 (buffer self1 ++ l))
             (if eq_str ty "SCHEMA"
              then set_curSchemaBuffer p1 (curSchemaBuffer p1 ++ l) else p1) ls'
           ∧ (length (buffer (set_buffer self1 (buffer self1 ++ l)))
             + length (stdin (if eq_str ty "SCHEMA"
              then set_curSchemaBuffer p1 (curSchemaBuffer p1 ++ l) else p1))
             = length (buffer self) + length (stdin p))%nat) as Hfin.
  { intros self1 p1 Hb Hf Hc Hs Hsch Hnow Htk Hok Hst Hrun.
    split; [done|].
    split. { simpl. intros E. by apply app_eq_nil in E as [_ ?]. }
    exists (ls ++ [l]). destruct I as [inv_lines0 inv_bytes0 inv_schema0 inv_flush0 inv_now0 inv_ticks0 inv_ok0 inv_stopped0 inv_running0].
    assert (line_is json_loads "SCHEMA" l = eq_str ty "SCHEMA") as Hsc.
    { unfold line_is. by rewrite Ej, Et. }
    set (p2 := if eq_str ty "SCHEMA"
               then set_curSchemaBuffer p1 (curSchemaBuffer p1 ++ l) else p1).
    assert (stdin p2 = rest) as E1 by (unfold p2; by destruct (eq_str ty "SCHEMA")).
    assert (now p2 = now p1) as E2 by (unfold p2; by destruct (eq_str ty "SCHEMA")).
    assert (ticks p2 = ticks p1) as E3 by (unfold p2; by destruct (eq_str ty "SCHEMA")).
    assert (lastFlushTime p2 = lastFlushTime p1) as E4
      by (unfold p2; by destruct (eq_str ty "SCHEMA")).
    assert (curSchemaBuffer p2
            = curSchemaBuffer p1 ++ (if eq_str ty "SCHEMA" then l else [])) as E5.
    { unfold p2; destruct (eq_str ty "SCHEMA"); simpl; [done|by rewrite app_nil_r]. }
    clearbody p2.
    split.
    - constructor.
      + rewrite E1. by eapply lines_from_snoc.
      + simpl. rewrite Hb, concat_app, !app_assoc, inv_bytes0. simpl.
        by rewrite app_nil_r.
      + rewrite E5, List.filter_app, concat_app. simpl. rewrite Hsc.
        rewrite Hsch, inv_schema0, <- app_assoc. f_equal. f_equal.
        destruct (eq_str ty "SCHEMA"); simpl; by rewrite ?app_nil_r.
      + simpl. by rewrite Hf.
      + by rewrite E2, Hnow.
      + rewrite E3. lia.
      + apply Forall_app. split; [done|]. by constructor.
      + simpl. intros E. destruct (Hst E) as [He (f & k & H1 & H2 & H3 & H4 & H5)].
        split; [done|]. exists ls, l, f, k.
        destruct (inv_running0 Hns) as [Hlf _].
        rewrite E3, E4, <- inv_now0, <- Hlf. repeat split; try done; lia.
      + simpl. intros E. destruct (Hrun E) as [H1 H2].
        destruct (inv_running0 Hns) as [Hlf _].
        rewrite E4. split; [congruence|]. intros; congruence.
    - simpl. rewrite E1, Hb. done. }
  destruct (eq_str ty "STATE") eqn:Es.
  - unfold time_time in H. simpl in H.
    destruct (float_gt _ (flushSeconds self)) as [late|e] eqn:Eg; [|done].
    simpl in H.
    apply float_gt_as_number in Eg as (f & Hf & ->).
    assert (line_ok json_loads flush l = true) as Hok.
    { unfold line_ok. rewrite Ej, Et, Es. rewrite <- (inv_flush _ _ _ _ _ _ _ I).
      destruct (flushSeconds self); simpl in Hf; done. }
    destruct (Qgtb _ f) eqn:Elate; simpl in H; injection H as <- <-.
    + apply (Hfin (set_stoppedState (set_empty self true) true)
               (set_lastFlushTime (set_ticks (set_stdin p rest) (S (ticks p)))
                  (now p (ticks p)))); simpl; try done; try lia.
      * intros _. split; [done|]. exists f, (ticks p).
        split. { unfold line_is. by rewrite Ej, Et. }
        split. { by rewrite <- (inv_flush _ _ _ _ _ _ _ I). }
        split; [lia|]. split; [done|]. by apply Qgtb_lt.
    + apply (Hfin self (set_ticks (set_stdin p rest) (S (ticks p))));
        simpl; try done; try lia.
      * intros E. congruence.
  - simpl in H. injection H as <- <-.
    apply (Hfin self (set_stdin p rest)); simpl; try done.
    + unfold line_ok. by rewrite Ej, Et, Es.
    + intros E; congruence.
Qed.

Lemma seg_inv_set_closed p0 flush out self p ls x :
  seg_inv json_loads p0 flush out self p ls → seg_inv json_loads p0 flush out (set_closed self x) p ls.
Proof. intros [inv_lines0 inv_bytes0 inv_schema0 inv_flush0 inv_now0 inv_ticks0 inv_ok0 inv_stopped0 inv_running0]. by constructor. Qed.

Lemma read_inv p0 flush out self p ls size data self' p' :
  seg_inv json_loads p0 flush out self p ls → closed self = false →
  read json_loads self size p = Ok (data, self', p') →
  ∃ ls', seg_inv json_loads p0 flush (out ++ data) self' p' ls'
    ∧ (length data + (length (buffer self') + length (stdin p'))
       = length (buffer self) + length (stdin p))%nat
    ∧ (data ≠ [] → closed self' = false)
    ∧ (data = [] → valid_size size → buffer self' = [] ∧ empty self' = true).
Proof.
  intros I Hc H. unfold read in H.
  set (readSize := if size =? -1 then 8192 else size) in *.
  assert (∃ self1 p1 ls1,
    seg_inv json_loads p0 flush out self1 p1 ls1 ∧ closed self1 = false
    ∧ (length (buffer self1) + length (stdin p1)
       = length (buffer self) + length (stdin p))%nat
    ∧ (buffer self1 = [] → valid_size size → empty self1 = true)
    ∧ (if (length (buffer self1) =? 0)%nat then Ok ([], set_closed self1 true, p1)
       else Ok (slice_to (buffer self1) readSize,
                set_buffer self1 (slice_from (buffer self1) readSize), p1))
      = Ok (data, self', p')) as (self1 & p1 & ls1 & I1 & Hc1 & Hlen & Hemp & H1).
  { destruct (Z.of_nat (length (buffer self)) <? readSize) eqn:El.
    - destruct (readMore json_loads self p) as [[self1 p1]|e] eqn:Erm; [|done].
      destruct (readMore_inv _ _ _ _ _ _ _ _ I Erm) as (Hcl & Hb & ls1 & I1 & Hlen).
      exists self1, p1, ls1.
      split; [done|]. split; [congruence|]. split; [done|]. split; [|done].
      intros E _. by apply Hb.
    - exists self, p, ls.
      split; [done|]. split; [done|]. split; [done|]. split; [|done].
      intros E Hv. apply valid_size_readSize in Hv. fold readSize in Hv.
      apply Z.ltb_ge in El. rewrite E in El. simpl in El. lia. }
  clear H. destruct (length (buffer self1) =? 0)%nat eqn:E0.
  - injection H1 as <- <- <-. apply Nat.eqb_eq in E0.
    apply length_zero_iff_nil in E0.
    exists ls1. rewrite app_nil_r. split; [by apply seg_inv_set_closed|].
    split; [by simpl|]. split; [done|]. intros _ Hv. simpl. split; [done|].
    by apply Hemp.
  - injection H1 as <- <- <-. apply Nat.eqb_neq in E0.
    exists ls1. split; [|split; [|split]].
    + destruct I1 as [inv_lines0 inv_bytes0 inv_schema0 inv_flush0 inv_now0 inv_ticks0 inv_ok0 inv_stopped0 inv_running0]. constructor; simpl; try done.
      rewrite inv_bytes0, <- app_assoc. f_equal. symmetry. apply slice_take_drop.
    + simpl. rewrite <- Hlen.
      rewrite <- (slice_take_drop (buffer self1) readSize) at 3.
      rewrite length_app. lia.
    + done.
    + intros E Hv. exfalso. apply valid_size_readSize in Hv. fold readSize in Hv.
      eapply slice_to_nonempty; [exact Hv| |exact E].
      intros Hb. rewrite Hb in E0. done.
Qed.

(** Lines that [readMore] accepts never make [read] raise. *)
Lemma readMore_ok flush self p :
  flushSeconds self = flush →
  Forall (λ l, line_ok json_loads flush l = true) (split_lines (stdin p)) →
  ∃ self' p', readMore json_loads self p = Ok (self', p')
    ∧ flushSeconds self' = flush
    ∧ Forall (λ l, line_ok json_loads flush l = true) (split_lines (stdin p')).
Proof.
  intros Hf Hall. unfold readMore.
  destruct (empty self || closed self); [by eauto 10|].
  destruct (readline (stdin p)) as [l rest] eqn:Er.
  destruct l as [|c0 l0].
  { apply readline_empty in Er as [_ ->]. eexists _, _. split; [done|]. simpl.
    split; [done|]. constructor. }
  assert (stdin p ≠ []) as Hne by (intros E; rewrite E in Er; simpl in Er; done).
  rewrite (split_lines_readline _ _ _ Er Hne) in Hall.
  apply Forall_cons in Hall as [Hl Hrest].
  unfold line_ok in Hl.
  destruct (json_loads (c0 :: l0)) as [line|]; [|done]. simpl.
  destruct (getitem line "type") as [ty|]; [|done]. simpl.
  destruct (eq_str ty "STATE").
  - unfold time_time. simpl. rewrite <- Hf in Hl.
    rewrite (float_gt_is_ok _ (now p (ticks p) - lastFlushTime p)%Q) in Hl.
    destruct (float_gt _ (flushSeconds self)) as [late|]; [|done]. simpl.
    destruct late; simpl; eexists _, _; (split; [done|]); (split; [done|]);
      by destruct (eq_str ty "SCHEMA").
  - simpl. eexists _, _. split; [done|]. split; [done|].
    by destruct (eq_str ty "SCHEMA").
Qed.

Lemma read_ok flush self size p :
  flushSeconds self = flush →
  Forall (λ l, line_ok json_loads flush l = true) (split_lines (stdin p)) →
  ∃ data self' p', read json_loads self size p = Ok (data, self', p')
    ∧ flushSeconds self' = flush
    ∧ Forall (λ l, line_ok json_loads flush l = true) (split_lines (stdin p')).
Proof.
  intros Hf Hall. unfold read.
  assert (∀ self1 p1, flushSeconds self1 = flush →
    Forall (λ l, line_ok json_loads flush l = true) (split_lines (stdin p1)) →
    ∃ data self' p',
      (if (length (buffer self1) =? 0)%nat then Ok ([], set_closed self1 true, p1)
       else Ok (slice_to (buffer self1) (if size =? -1 then 8192 else size),
                set_buffer self1
                  (slice_from (buffer self1) (if size =? -1 then 8192 else size)), p1))
      = Ok (data, self', p')
      ∧ flushSeconds self' = flush
      ∧ Forall (λ l, line_ok json_loads flush l = true) (split_lines (stdin p')))
    as Hk.
  { intros self1 p1 H1 H2. destruct (length (buffer self1) =? 0)%nat; by eauto 10. }
  destruct (Z.of_nat (length (buffer self)) <? _).
  - destruct (readMore_ok flush self p Hf Hall) as (self1 & p1 & -> & Hf1 & Hall1).
    simpl. by apply Hk.
  - simpl. by apply Hk.
Qed.

End SegmentProofs.

Lemma lines_from_nonempty ls inp rest : lines_from ls inp rest → Forall (λ l, l ≠ []) ls.
Proof.
  revert inp; induction ls as [|l ls IH]; intros inp; simpl; [constructor|].
  intros [Hl (r & _ & Hls)]. constructor; [done|]. by eapply IH.
Qed.

Section LoaderProofs.
Variable json_loads : bytes -> result value.
Variable size : Z.

Lemma drain_inv p0 flush fuel : ∀ out self p ls chunks self' p',
  seg_inv json_loads p0 flush out self p ls → closed self = false →
  drain json_loads size fuel self p = Some (Ok (chunks, self', p')) →
  ∃ ls', seg_inv json_loads p0 flush (out ++ concat chunks) self' p' ls'
     ∧ (valid_size size → buffer self' = [] ∧ empty self' = true).
Proof.
  induction fuel as [|fuel IH]; intros out self p ls chunks self' p' I Hc H; [done|].
  simpl in H.
  destruct (read json_loads self size p) as [[[data self1] p1]|e] eqn:Er; [|done].
  destruct (read_inv _ _ _ _ _ _ _ _ _ _ _ I Hc Er) as (ls1 & I1 & _ & Hcl & Hend).
  destruct data as [|c d].
  - injection H as <- <- <-. exists ls1. simpl. split; [done|]. by apply Hend.
  - destruct (drain json_loads size fuel self1 p1) as [[[[ch s2] p2]|e]|] eqn:Ed;
      [|done|done].
    injection H as <- <- <-.
    destruct (IH _ _ _ _ _ _ _ I1 (Hcl ltac:(done)) Ed) as (ls2 & I2 & H2).
    exists ls2. split; [|done].
    replace (out ++ concat ((c :: d) :: ch)) with ((out ++ c :: d) ++ concat ch);
      [done|]. by rewrite <- app_assoc.
Qed.

Lemma drain_total p0 flush fuel : ∀ out self p ls,
  seg_inv json_loads p0 flush out self p ls → closed self = false →
  (length (buffer self) + length (stdin p) < fuel)%nat →
  ∃ r, drain json_loads size fuel self p = Some r.
Proof.
  induction fuel as [|fuel IH]; intros out self p ls I Hc Hlt; [lia|].
  simpl.
  destruct (read json_loads self size p) as [[[data self1] p1]|e] eqn:Er; [|by eauto].
  destruct (read_inv _ _ _ _ _ _ _ _ _ _ _ I Hc Er) as (ls1 & I1 & Hlen & Hcl & _).
  destruct data as [|c d]; [by eauto|].
  destruct (IH _ _ _ _ I1 (Hcl ltac:(done))) as [r Hr].
  { simpl in Hlen. lia. }
  rewrite Hr. destruct r as [[[ch s2] p2]|e]; by eauto.
Qed.

Lemma drain_ok p0 flush fuel : ∀ out self p ls,
  seg_inv json_loads p0 flush out self p ls → closed self = false →
  (length (buffer self) + length (stdin p) < fuel)%nat →
  Forall (λ l, line_ok json_loads flush l = true) (split_lines (stdin p)) →
  ∃ chunks self' p', drain json_loads size fuel self p = Some (Ok (chunks, self', p')).
Proof.
  induction fuel as [|fuel IH]; intros out self p ls I Hc Hlt Hall; [lia|].
  simpl.
  destruct (read_ok json_loads flush self size p (inv_flush _ _ _ _ _ _ _ I) Hall)
    as (data & self1 & p1 & Er & Hf1 & Hall1).
  rewrite Er.
  destruct (read_inv _ _ _ _ _ _ _ _ _ _ _ I Hc Er) as (ls1 & I1 & Hlen & Hcl & _).
  destruct data as [|c d]; [by eauto|].
  destruct (IH _ _ _ _ I1 (Hcl ltac:(done))) as (ch & s2 & p2 & Hr); [|done|].
  { simpl in Hlen. lia. }
  rewrite Hr. by eauto.
Qed.

Lemma seg_spec_consumed s ls : seg_spec json_loads size s ls → seg_consumed s = concat ls.
Proof.
  intros (self & I & _). unfold seg_consumed.
  pose proof (lines_from_app _ _ _ (inv_lines _ _ _ _ _ _ _ I)) as E.
  rewrite E at 2. rewrite E at 1. rewrite length_app.
  replace (length (concat ls) + length (stdin (seg_after s))
           - length (stdin (seg_after s)))%nat with (length (concat ls)) by lia.
  by rewrite take_app_length.
Qed.

Lemma seg_spec_lines s ls : seg_spec json_loads size s ls → seg_lines s = ls.
Proof.
  intros H. unfold seg_lines. rewrite (seg_spec_consumed _ _ H).
  destruct H as (self & I & _).
  eapply lines_from_concat, (inv_lines _ _ _ _ _ _ _ I).
Qed.

Lemma seg_spec_stdin s ls :
  seg_spec json_loads size s ls → stdin (seg_before s) = seg_consumed s ++ stdin (seg_after s).
Proof.
  intros H. rewrite (seg_spec_consumed _ _ H). destruct H as (self & I & _).
  apply lines_from_app, (inv_lines _ _ _ _ _ _ _ I).
Qed.

Lemma seg_spec_stopped_shrinks s ls :
  seg_spec json_loads size s ls → seg_stopped s = true →
  (length (stdin (seg_after s)) < length (stdin (seg_before s)))%nat.
Proof.
  intros H Hs. rewrite (seg_spec_stdin _ _ H), (seg_spec_consumed _ _ H).
  destruct H as (self & I & E & _). rewrite <- E in Hs.
  destruct (inv_stopped _ _ _ _ _ _ _ I Hs) as [_ (ls' & l & f & k & -> & _)].
  pose proof (lines_from_nonempty _ _ _ (inv_lines _ _ _ _ _ _ _ I)) as Hne.
  apply Forall_app in Hne as [_ Hne]. apply Forall_cons in Hne as [Hl _].
  rewrite concat_app, !length_app. simpl. destruct l; [done|]. simpl. lia.
Qed.

Lemma Loader_run_spec p flush chunks self p' :
  Loader_run json_loads size (WrappedTextIO_init p flush) p = Some (Ok (chunks, self, p')) →
  ∀ config files,
    ∃ ls, seg_spec json_loads size (mkSegment config p flush
                      (buffer (io_buffer (WrappedTextIO_init p flush)))
                      chunks (stoppedState self) files p') ls.
Proof.
  intros H config files. unfold Loader_run in H.
  destruct (drain_inv p flush _ [] _ _ [] _ _ _ (seg_inv_init json_loads p flush)
              ltac:(done) H) as (ls & I & Hv).
  exists ls, self. simpl in *. done.
Qed.

Lemma Loader_run_total p flush :
  ∃ r, Loader_run json_loads size (WrappedTextIO_init p flush) p = Some r.
Proof.
  unfold Loader_run.
  eapply (drain_total p flush _ []); [apply seg_inv_init|done|]. simpl. lia.
Qed.

Lemma Loader_run_ok p flush :
  Forall (λ l, line_ok json_loads flush l = true) (split_lines (stdin p)) →
  ∃ chunks self p',
    Loader_run json_loads size (WrappedTextIO_init p flush) p
    = Some (Ok (chunks, self, p')).
Proof.
  intros Hall. unfold Loader_run.
  eapply (drain_ok p flush _ []); [apply seg_inv_init|done| |done]. simpl. lia.
Qed.

End LoaderProofs.

Section MainProofs.
Variable json_loads : bytes -> result value.
Variable repr_other : value -> string.
Variable environ : gmap string string.
Variable config_file : gmap string value -> gmap string value.
Variable create_session : gmap string value -> result unit.
Variable name_file : gmap string value -> list bytes -> FileMetadata.
Variable file_count : nat.
Variable size : Z.

Abbreviation main_loop :=
  (main_loop json_loads repr_other environ config_file create_session name_file file_count size).

Lemma main_loop_S curConfig fuel lastTime client p :
  main_loop (S fuel) curConfig lastTime client p =
  match config_compression repr_other (config_file curConfig) with
  | Raise e => Some ([], Raise e)
  | Ok config =>
      match (match client with
             | Some c => Ok c
             | None => _ ← create_session config; Ok (new_client config environ)
             end) with
      | Raise e => Some ([], Raise e)
      | Ok c =>
          match Loader_run json_loads size
                  (WrappedTextIO_init (snd (time_time p)) (flush_interval config))
                  (snd (time_time p)) with
          | None => None
          | Some (Raise e) => Some ([], Raise e)
          | Some (Ok (chunks, self, p')) =>
              let seg :=
                mkSegment (loader_config c config) (snd (time_time p))
                  (flush_interval config)
                  (buffer (io_buffer (WrappedTextIO_init (snd (time_time p))
                                        (flush_interval config))))
                  chunks (stoppedState self)
                  (Loader_files json_loads name_file file_count (loader_config c config)
                     (concat chunks)) p' in
              if negb (stoppedState self) then Some ([seg], Ok tt)
              else
                match main_loop fuel curConfig (py_round (fst (time_time p)))
                        (Some c) p' with
                | Some (segs, r) => Some (seg :: segs, r)
                | None => None
                end
          end
      end
  end.
Proof. reflexivity. Qed.

Lemma main_loop_spec curConfig fuel : ∀ lastTime client p segs r,
  main_loop fuel curConfig lastTime client p = Some (segs, r) →
  run_spec json_loads size p segs
  ∧ (r = Ok tt → ∃ s, last segs = Some s ∧ seg_stopped s = false)
  ∧ (∀ config, config_compression repr_other (config_file curConfig) = Ok config →
     Forall (seg_static json_loads environ name_file file_count config client) segs).
Proof.
  induction fuel as [|fuel IH]; intros lastTime client p segs r H; [done|].
  rewrite main_loop_S in H.
  destruct (config_compression repr_other (config_file curConfig)) as [config|e] eqn:Ec.
  2:{ injection H as <- <-. split; [done|]. split; [done|]. done. }
  set (c0 := match client with
             | Some c => Ok c
             | None => _ ← create_session config; Ok (new_client config environ)
             end) in H.
  destruct c0 as [c|e] eqn:Ecl.
  2:{ injection H as <- <-. split; [done|]. split; [done|]. intros. constructor. }
  assert (c = client_in environ config client) as Hc.
  { unfold c0 in Ecl. destruct client; [by injection Ecl|].
    destruct (create_session config); [by injection Ecl|done]. }
  destruct (Loader_run json_loads size _ _) as [[[[chunks self] p']|e]|] eqn:El;
    [|by injection H as <- <-|done].
  pose proof (Loader_run_spec _ _ _ _ _ _ _ El) as Hseg.
  cbv zeta in H.
  set (seg := mkSegment (loader_config c config) _ _ _ chunks _ _ p') in *.
  assert (seg_static json_loads environ name_file file_count config client seg) as Hst.
  { unfold seg_static, seg. cbn [seg_flushSeconds seg_config seg_files seg_chunks].
    by rewrite Hc. }
  specialize (Hseg (loader_config c config)
                (Loader_files json_loads name_file file_count (loader_config c config)
                   (concat chunks))).
  assert (seg_stopped seg = stoppedState self) as Hss by done.
  assert (seg_before seg = snd (time_time p)) as Hsb by done.
  assert (seg_after seg = p') as Hsa by done.
  assert (seg_config seg = loader_config c config) as Hsc by done.
  fold seg in Hseg.
  clearbody seg.
  destruct (stoppedState self) eqn:Es; cbn [negb] in H.
  - destruct (main_loop fuel curConfig _ (Some c) p') as [[segs' r']|] eqn:Em; [|done].
    injection H as <- <-.
    destruct (IH _ _ _ _ _ Em) as (Hrun & Hlast & Hcfg).
    split; [|split].
    + cbn [run_spec]. rewrite Hsa. done.
    + intros Hr. destruct (Hlast Hr) as (s & Hs & Hns). exists s. split; [|done].
      destruct segs'; [done|]. done.
    + intros config' E. injection E as <-. constructor; [done|].
      eapply Forall_impl; [apply Hcfg; done|].
      intros s (H1 & H2 & H3). split; [done|]. split; [|done].
      rewrite H2. cbn [client_in]. rewrite <- Hc. reflexivity.
  - injection H as <- <-. split; [|split].
    + cbn [run_spec]. done.
    + intros _. exists seg. done.
    + intros config' E. injection E as <-. by constructor.
Qed.

Lemma main_loop_total curConfig fuel : ∀ lastTime client p,
  (length (stdin p) < fuel)%nat →
  ∃ res, main_loop fuel curConfig lastTime client p = Some res.
Proof.
  induction fuel as [|fuel IH]; intros lastTime client p Hlt; [lia|].
  rewrite main_loop_S.
  destruct (config_compression repr_other (config_file curConfig)) as [config|e];
    [|by eauto].
  destruct (match client with
            | Some c => Ok c
            | None => _ ← create_session config; Ok (new_client config environ)
            end) as [c|e]; [|by eauto].
  destruct (Loader_run_total json_loads size (snd (time_time p))
              (flush_interval config)) as [res Hres].
  rewrite Hres.
  destruct res as [[[chunks self] p']|e]; [|by eauto].
  cbv zeta.
  destruct (stoppedState self) eqn:Es; cbn [negb]; [|by eauto].
  destruct (Loader_run_spec _ _ _ _ _ _ _ Hres (loader_config c config) [])
    as (ls & Hseg).
  pose proof (seg_spec_stopped_shrinks _ _ _ _ Hseg Es) as Hshr.
  cbn [seg_after seg_before time_time snd set_ticks stdin] in Hshr.
  destruct (IH (py_round (fst (time_time p))) (Some c) p') as [[segs r] Hm]; [lia|].
  rewrite Hm. by eauto.
Qed.

Lemma run_spec_stdin p segs s :
  run_spec json_loads size p segs → last segs = Some s →
  stdin p = concat (map seg_consumed segs) ++ stdin (seg_after s).
Proof.
  revert p; induction segs as [|s0 rest IH]; intros p; [done|].
  cbn [run_spec]. intros (Hb & (ls & Hseg) & Hst & Hrun) Hlast.
  pose proof (seg_spec_stdin _ _ _ _ Hseg) as E. rewrite Hb in E.
  cbn [time_time snd set_ticks stdin] in E.
  rewrite E. cbn [map concat]. rewrite <- app_assoc. f_equal.
  destruct rest as [|s1 rest].
  - injection Hlast as <-. done.
  - by apply IH.
Qed.

Lemma main_loop_ok curConfig config fuel : ∀ lastTime client p,
  config_compression repr_other (config_file curConfig) = Ok config →
  (client = None → create_session config = Ok tt) →
  Forall (λ l, line_ok json_loads (flush_interval config) l = true)
    (split_lines (stdin p)) →
  (length (stdin p) < fuel)%nat →
  ∃ segs, main_loop fuel curConfig lastTime client p = Some (segs, Ok tt).
Proof.
  induction fuel as [|fuel IH]; intros lastTime client p Ec Hcs Hall Hlt; [lia|].
  rewrite main_loop_S, Ec.
  assert (∃ c, match client with
            | Some c => Ok c
            | None => _ ← create_session config; Ok (new_client config environ)
            end = Ok c) as [c ->].
  { destruct client; [by eauto|]. rewrite Hcs; [|done]. by eexists. }
  destruct (Loader_run_ok json_loads size (snd (time_time p))
              (flush_interval config) Hall) as (chunks & self & p' & Hres).
  rewrite Hres. cbv zeta.
  destruct (stoppedState self) eqn:Es; cbn [negb]; [|by eauto].
  destruct (Loader_run_spec _ _ _ _ _ _ _ Hres (loader_config c config) [])
    as (ls & Hseg).
  pose proof (seg_spec_stopped_shrinks _ _ _ _ Hseg Es) as Hshr.
  cbn [seg_after seg_before time_time snd set_ticks stdin] in Hshr.
  destruct Hseg as (self' & I & _).
  pose proof (lines_from_split _ _ _ (inv_lines _ _ _ _ _ _ _ I)) as Hsp.
  cbn [seg_after seg_before time_time snd set_ticks stdin] in Hsp.
  rewrite Hsp in Hall. apply Forall_app in Hall as [_ Hall'].
  destruct (IH (py_round (fst (time_time p))) (Some c) p' Ec ltac:(done) Hall')
    as [segs Hm]; [lia|].
  rewrite Hm. by eauto.
Qed.

End MainProofs.

Lemma elem_of_concat_infix (l : bytes) (ls : list bytes) :
  l ∈ ls → ∃ pre post, concat ls = pre ++ l ++ post.
Proof.
  intros H. apply list_elem_of_split in H as (l1 & l2 & ->).
  exists (concat l1), (concat l2). by rewrite concat_app.
Qed.

Lemma lines_from_last ls l inp rest :
  lines_from (ls ++ [l]) inp rest →
  l ≠ [] ∧ readline (l ++ rest) = (l, rest) ∧ inp = concat ls ++ l ++ rest.
Proof.
  revert inp; induction ls as [|l0 ls IH]; intros inp; simpl.
  - intros [Hl (r & Hr & ->)]. split; [done|].
    pose proof (readline_app _ _ _ Hr) as E. by rewrite <- E.
  - intros [Hl0 (r & Hr & Hls)]. destruct (IH _ Hls) as (Hl & Hrl & E).
    split; [done|]. split; [done|].
    rewrite (readline_app _ _ _ Hr), E. by rewrite <- app_assoc.
Qed.

Section RunProofs.
Variable json_loads : bytes -> result value.
Variable repr_other : value -> string.
Variable environ : gmap string string.
Variable config_file : gmap string value -> gmap string value.
Variable create_session : gmap string value -> result unit.
Variable name_file : gmap string value -> list bytes -> FileMetadata.
Variable file_count : nat.
Variable size : Z.

Abbreviation run_main :=
  (main json_loads repr_other environ config_file create_session name_file file_count size).
Abbreviation run_ok := (run_spec json_loads size).
Abbreviation seg_ok := (seg_spec json_loads size).

Lemma main_returns curConfig p : ∃ segs r, run_main curConfig p = Some (segs, r).
Proof.
  destruct (main_loop_total json_loads repr_other environ config_file create_session
              name_file file_count size curConfig (S (length (stdin p))) 0 None p)
    as [[segs r] H]; [lia|].
  by exists segs, r.
Qed.

Lemma main_spec curConfig p segs r :
  run_main curConfig p = Some (segs, r) →
  run_ok p segs
  ∧ (r = Ok tt → ∃ s, last segs = Some s ∧ seg_stopped s = false)
  ∧ (∀ config, config_compression repr_other (config_file curConfig) = Ok config →
     Forall (seg_static json_loads environ name_file file_count config None) segs).
Proof. apply main_loop_spec. Qed.

Lemma run_spec_lookup p segs i s :
  run_ok p segs → segs !! i = Some s → ∃ ls, seg_ok s ls.
Proof.
  revert p i; induction segs as [|s0 rest IH]; intros p i; [done|].
  cbn [run_spec]. intros (_ & Hs & _ & Hrun). destruct i as [|i]; simpl.
  - by intros [= <-].
  - by apply (IH (seg_after s0)).
Qed.

Lemma run_spec_next p segs K sK sK1 :
  run_ok p segs → segs !! K = Some sK → segs !! S K = Some sK1 →
  seg_stopped sK = true ∧ seg_before sK1 = snd (time_time (seg_after sK)).
Proof.
  revert p K; induction segs as [|s0 rest IH]; intros p K; [done|].
  cbn [run_spec]. intros (_ & _ & Hst & Hrun). destruct K as [|K]; simpl.
  - intros [= <-] H1. split.
    + apply Hst. by destruct rest.
    + destruct rest as [|s1 rest]; [done|]. simpl in H1. injection H1 as <-.
      cbn [run_spec] in Hrun. by destruct Hrun as [? _].
  - by apply (IH (seg_after s0)).
Qed.

Lemma run_spec_seed p segs i s :
  run_ok p segs → segs !! i = Some s →
  seg_seed s
  = curSchemaBuffer p
    ++ concat (List.filter (line_is json_loads "SCHEMA")
                 (concat (map seg_lines (take i segs)))).
Proof.
  revert p i; induction segs as [|s0 rest IH]; intros p i; [done|].
  cbn [run_spec]. intros (Hb & (ls & Hs) & _ & Hrun). destruct i as [|i]; simpl.
  - intros [= <-]. destruct Hs as (self & _ & _ & -> & _). rewrite Hb.
    by rewrite app_nil_r.
  - intros Hi. rewrite (IH _ _ Hrun Hi).
    rewrite (seg_spec_lines _ _ _ _ Hs).
    destruct Hs as (self & I & _).
    rewrite (inv_schema _ _ _ _ _ _ _ I), Hb.
    rewrite List.filter_app, concat_app, <- app_assoc. done.
Qed.

Lemma seg_spec_delivered s ls :
  seg_ok s ls → valid_size size →
  concat (seg_chunks s) = seg_seed s ++ seg_consumed s.
Proof.
  intros Hs Hv. rewrite (seg_spec_consumed _ _ _ _ Hs).
  destruct Hs as (self & I & _ & -> & Hend). destruct (Hend Hv) as [Hb _].
  rewrite (inv_bytes _ _ _ _ _ _ _ I), Hb. by rewrite app_nil_r.
Qed.

Lemma seg_spec_delivered_prefix s ls :
  seg_ok s ls → concat (seg_chunks s) `prefix_of` seg_seed s ++ seg_consumed s.
Proof.
  intros Hs. rewrite (seg_spec_consumed _ _ _ _ Hs).
  destruct Hs as (self & I & _ & -> & _).
  rewrite (inv_bytes _ _ _ _ _ _ _ I). by eexists.
Qed.

Lemma seg_spec_eof s ls :
  seg_ok s ls → valid_size size → seg_stopped s = false → stdin (seg_after s) = [].
Proof.
  intros (self & I & Est & _ & Hend) Hv Hs. destruct (Hend Hv) as [_ He].
  rewrite <- Est in Hs. by apply (inv_running _ _ _ _ _ _ _ I Hs).
Qed.

(** C1, amended.  For every input and every valid read size, the run
    returns; the bytes that the [read] calls of a segment return are the
    segment's first buffer followed by exactly the input bytes consumed
    while it ran; that first buffer holds the SCHEMA lines read in all the
    segments before; and the parts consumed, in segment order, make up the
    input, all of it when the loop ends by [break]. *)
Theorem segments_deliver_seed_then_input curConfig p :
  valid_size size →
  ∃ segs r,
    run_main curConfig p = Some (segs, r)
    ∧ (∀ i s, segs !! i = Some s →
         concat (seg_chunks s) = seg_seed s ++ seg_consumed s
         ∧ seg_seed s
           = curSchemaBuffer p
             ++ concat (List.filter (line_is json_loads "SCHEMA")
                          (concat (map seg_lines (take i segs)))))
    ∧ ∃ rest, stdin p = concat (map seg_consumed segs) ++ rest
              ∧ (r = Ok tt → rest = []).
Proof.
  intros Hv. destruct (main_returns curConfig p) as (segs & r & Hm).
  exists segs, r. split; [done|].
  destruct (main_spec _ _ _ _ Hm) as (Hrun & Hlast & _).
  split.
  - intros i s Hi. destruct (run_spec_lookup _ _ _ _ Hrun Hi) as [ls Hs].
    split; [by eapply seg_spec_delivered|by apply run_spec_seed].
  - destruct (last segs) as [s|] eqn:El.
    + exists (stdin (seg_after s)). split; [by apply (run_spec_stdin json_loads size)|].
      intros Hr. destruct (Hlast Hr) as (s' & [= <-] & Hns).
      apply last_Some in El as [l' ->].
      destruct (run_spec_lookup p (l' ++ [s]) (length l') s Hrun) as [ls Hs].
      { by rewrite lookup_app_r, Nat.sub_diag. }
      by eapply seg_spec_eof.
    + apply last_None in El as ->. exists (stdin p). split; [done|].
      intros Hr. by destruct (Hlast Hr) as (s' & ? & _).
Qed.

Lemma read_stopped_valid self q data self1 q1 :
  read json_loads self size q = Ok (data, self1, q1) →
  stoppedState self1 = stoppedState self ∨ valid_size size.
Proof.
  intros H. unfold read in H.
  destruct (Z.of_nat (length (buffer self)) <? (if size =? -1 then 8192 else size))
    eqn:E.
  - right. apply Z.ltb_lt in E. unfold valid_size.
    destruct (size =? -1) eqn:E1; [left; by apply Z.eqb_eq|right; lia].
  - left. cbn in H.
    destruct (length (buffer self) =? 0)%nat; by injection H as <- <- <-.
Qed.

Lemma drain_stopped_valid fuel : ∀ self q chunks self' q',
  drain json_loads size fuel self q = Some (Ok (chunks, self', q')) →
  stoppedState self' = stoppedState self ∨ valid_size size.
Proof.
  induction fuel as [|fuel IH]; intros self q chunks self' q' H; [done|].
  simpl in H.
  destruct (read json_loads self size q) as [[[data self1] q1]|e] eqn:Er; [|done].
  destruct (read_stopped_valid _ _ _ _ _ Er) as [E1|Hv]; [|by right].
  destruct data as [|c d].
  - injection H as <- <- <-. by left.
  - destruct (drain json_loads size fuel self1 q1) as [[[[ch s2] q2]|e]|] eqn:Ed;
      [|done|done].
    injection H as <- <- <-.
    destruct (IH _ _ _ _ _ Ed) as [E2|Hv]; [left; congruence|by right].
Qed.

Lemma main_loop_stopped_valid curConfig fuel : ∀ lastTime client p segs r,
  main_loop json_loads repr_other environ config_file create_session name_file
    file_count size fuel curConfig lastTime client p = Some (segs, r) →
  ∀ s, s ∈ segs → seg_stopped s = true → valid_size size.
Proof.
  induction fuel as [|fuel IH]; intros lastTime client p segs r H; [done|].
  rewrite main_loop_S in H.
  destruct (config_compression repr_other (config_file curConfig)) as [config|e].
  2:{ injection H as <- <-. intros s Hs. by apply elem_of_nil in Hs. }
  destruct (match client with
            | Some c => Ok c
            | None => _ ← create_session config; Ok (new_client config environ)
            end) as [c|e].
  2:{ injection H as <- <-. intros s Hs. by apply elem_of_nil in Hs. }
  destruct (Loader_run json_loads size _ _) as [[[[chunks self] p']|e]|] eqn:El.
  2:{ injection H as <- <-. intros s Hs. by apply elem_of_nil in Hs. }
  2:{ done. }
  cbv zeta in H.
  set (seg := mkSegment (loader_config c config) _ _ _ chunks _ _ p') in *.
  assert (seg_stopped seg = stoppedState self) as Hss by done.
  clearbody seg.
  unfold Loader_run in El. apply drain_stopped_valid in El.
  cbn [WrappedTextIO_init io_buffer WrappedIoBuffer_init stoppedState] in El.
  destruct (stoppedState self) eqn:Es; cbn [negb] in H.
  - destruct El as [El|Hv]; [done|].
    destruct (main_loop _ _ _ _ _ _ _ _ fuel curConfig _ (Some c) p')
      as [[segs' r']|]; [|done].
    injection H as <- <-. intros s _ _. exact Hv.
  - injection H as <- <-. intros s Hs Hst.
    apply list_elem_of_singleton in Hs as ->. congruence.
Qed.

Lemma readMore_stop_appends self q self' q' :
  readMore json_loads self q = Ok (self', q') →
  stoppedState self = false → stoppedState self' = true →
  ∃ l rest,
    readline (stdin q) = (l, rest) ∧ l ≠ []
    ∧ line_is json_loads "STATE" l = true
    ∧ buffer self' = buffer self ++ l
    ∧ empty self' = true
    ∧ stdin q' = rest.
Proof.
  intros H Hns Hst. unfold readMore in H.
  destruct (empty self || closed self).
  { injection H as <- <-. congruence. }
  destruct (readline (stdin q)) as [l rest] eqn:Er.
  destruct l as [|c0 l0].
  { injection H as <- <-. simpl in Hst. congruence. }
  destruct (json_loads (c0 :: l0)) as [line|] eqn:Ej; [|done]. simpl in H.
  destruct (getitem line "type") as [ty|] eqn:Et; [|done]. simpl in H.
  destruct (eq_str ty "STATE") eqn:Es.
  - unfold time_time in H. simpl in H.
    destruct (float_gt _ (flushSeconds self)) as [late|]; [|done]. simpl in H.
    destruct late; simpl in H; injection H as <- <-.
    + exists (c0 :: l0), rest. split; [done|]. split; [done|]. split.
      { unfold line_is. by rewrite Ej, Et. }
      split; [done|]. split; [done|]. by destruct (eq_str ty "SCHEMA").
    + simpl in Hst. congruence.
  - simpl in H. injection H as <- <-. simpl in Hst. congruence.
Qed.

(** C5.  [readMore] sets [stoppedState] only in a call that takes one
    whole line from the input, a STATE message, and appends it to the
    buffer, setting [empty] in the same call; with [empty] set, no later
    call appends anything.  The run returns, and every segment it
    completes with [stoppedState()] true read at least one line, the last
    of which is a STATE message, one whole line of the input after which
    the segment read nothing more; and the bytes that went through the
    buffer of the segment, all of them handed out by [read], are the first
    buffer and the lines read, that STATE line at the end. *)
Theorem stopped_segment_ends_with_state curConfig p :
  (∀ self q self' q',
     readMore json_loads self q = Ok (self', q') →
     stoppedState self = false → stoppedState self' = true →
     ∃ l rest,
       readline (stdin q) = (l, rest) ∧ l ≠ []
       ∧ line_is json_loads "STATE" l = true
       ∧ buffer self' = buffer self ++ l
       ∧ empty self' = true
       ∧ stdin q' = rest)
  ∧ (∀ self q, empty self = true → readMore json_loads self q = Ok (self, q))
  ∧ ∃ segs r,
      run_main curConfig p = Some (segs, r)
      ∧ ∀ s, s ∈ segs → seg_stopped s = true →
          ∃ ls l,
            seg_lines s = ls ++ [l]
            ∧ line_is json_loads "STATE" l = true
            ∧ l ≠ []
            ∧ readline (l ++ stdin (seg_after s)) = (l, stdin (seg_after s))
            ∧ stdin (seg_before s) = concat ls ++ l ++ stdin (seg_after s)
            ∧ concat (seg_chunks s) = seg_seed s ++ concat ls ++ l.
Proof.
  split; [apply readMore_stop_appends|]. split.
  { intros self q He. unfold readMore. by rewrite He. }
  destruct (main_returns curConfig p) as (segs & r & Hm).
  exists segs, r. split; [done|].
  destruct (main_spec _ _ _ _ Hm) as (Hrun & _ & _).
  intros s Hin Hst.
  pose proof (main_loop_stopped_valid _ _ _ _ _ _ _ Hm s Hin Hst) as Hv.
  apply list_elem_of_lookup in Hin as [i Hi].
  destruct (run_spec_lookup _ _ _ _ Hrun Hi) as [ls Hs].
  pose proof (seg_spec_lines _ _ _ _ Hs) as Hl.
  pose proof (seg_spec_delivered _ _ Hs Hv) as Hd.
  rewrite (seg_spec_consumed _ _ _ _ Hs) in Hd.
  destruct Hs as (self & I & Est & _). rewrite <- Est in Hst.
  destruct (inv_stopped _ _ _ _ _ _ _ I Hst) as [_ (ls' & l & f & k & -> & Hty & _)].
  exists ls', l. split; [done|]. split; [done|].
  pose proof (lines_from_last _ _ _ _ (inv_lines _ _ _ _ _ _ _ I)) as (H1 & H2 & H3).
  split; [done|]. split; [done|]. split; [done|].
  rewrite Hd, concat_app. simpl. by rewrite app_nil_r.
Qed.

(** C6.  The run returns, and for two consecutive segments of it, every
    SCHEMA line that the earlier one read lies in the buffer that the
    [WrappedIoBuffer] of the later one is constructed with; the bytes the
    later segment delivers begin with that buffer, the bytes it reads
    itself coming after. *)
Theorem schema_lines_seed_next_segment curConfig p :
  ∃ segs r,
    run_main curConfig p = Some (segs, r)
    ∧ ∀ K sK sK1 l,
        segs !! K = Some sK → segs !! S K = Some sK1 →
        l ∈ seg_lines sK → line_is json_loads "SCHEMA" l = true →
        seg_seed sK1
        = buffer (WrappedIoBuffer_init (seg_before sK1) (seg_flushSeconds sK1))
        ∧ (∃ pre post, seg_seed sK1 = pre ++ l ++ post)
        ∧ concat (seg_chunks sK1) `prefix_of` seg_seed sK1 ++ seg_consumed sK1.
Proof.
  destruct (main_returns curConfig p) as (segs & r & Hm).
  exists segs, r. split; [done|].
  destruct (main_spec _ _ _ _ Hm) as (Hrun & _ & _).
  intros K sK sK1 l HK HK1 Hl Hty.
  destruct (run_spec_lookup _ _ _ _ Hrun HK) as [ls Hs].
  destruct (run_spec_lookup _ _ _ _ Hrun HK1) as [ls1 Hs1].
  destruct (run_spec_next _ _ _ _ _ Hrun HK HK1) as [_ Hb].
  split; [|split].
  - by destruct Hs1 as (self1 & _ & _ & -> & _).
  - rewrite (seg_spec_lines _ _ _ _ Hs) in Hl.
    destruct Hs1 as (self1 & _ & _ & -> & _). rewrite Hb.
    destruct Hs as (self & I & _).
    cbn [time_time snd set_ticks curSchemaBuffer].
    rewrite (inv_schema _ _ _ _ _ _ _ I).
    assert (l ∈ List.filter (line_is json_loads "SCHEMA") ls) as Hin.
    { apply list_elem_of_In, List.filter_In. split; [by apply list_elem_of_In|done]. }
    destruct (elem_of_concat_infix _ _ Hin) as (pre & post & ->).
    exists (curSchemaBuffer (seg_before sK) ++ pre), post. by rewrite <- app_assoc.
  - by eapply seg_spec_delivered_prefix.
Qed.

Lemma main_loop_raise curConfig e fuel lastTime client p :
  config_compression repr_other (config_file curConfig) = Raise e →
  main_loop json_loads repr_other environ config_file create_session name_file file_count size
    (S fuel) curConfig lastTime client p = Some ([], Raise e).
Proof. intros H. by rewrite main_loop_S, H. Qed.

Lemma readMore_stop self q self' q' :
  readMore json_loads self q = Ok (self', q') → stoppedState self = false →
  (stoppedState self' = true →
     ∃ f l rest,
       as_number (flushSeconds self) = Some f
       ∧ readline (stdin q) = (l, rest)
       ∧ line_is json_loads "STATE" l = true
       ∧ (f < now q (ticks q) - lastFlushTime q)%Q
       ∧ lastFlushTime q' = now q (ticks q))
  ∧ (stoppedState self' = false → lastFlushTime q' = lastFlushTime q).
Proof.
  intros H Hns. unfold readMore in H.
  destruct (empty self || closed self).
  { injection H as <- <-. split; [congruence|done]. }
  destruct (readline (stdin q)) as [l rest] eqn:Er.
  destruct l as [|c0 l0].
  { injection H as <- <-. split; [simpl; congruence|done]. }
  destruct (json_loads (c0 :: l0)) as [line|] eqn:Ej; [|done]. simpl in H.
  destruct (getitem line "type") as [ty|] eqn:Et; [|done]. simpl in H.
  destruct (eq_str ty "STATE") eqn:Es.
  - unfold time_time in H. simpl in H.
    destruct (float_gt _ (flushSeconds self)) as [late|] eqn:Eg; [|done]. simpl in H.
    apply float_gt_as_number in Eg as (f & Hf & ->).
    destruct (Qgtb _ f) eqn:Elate; simpl in H; injection H as <- <-.
    + split; [|simpl; congruence]. intros _. exists f, (c0 :: l0), rest.
      split; [done|]. split; [done|]. split.
      { unfold line_is. by rewrite Ej, Et. }
      split; [by apply Qgtb_lt|]. by destruct (eq_str ty "SCHEMA").
    + split; [simpl; congruence|]. intros _. by destruct (eq_str ty "SCHEMA").
  - simpl in H. injection H as <- <-. split; [simpl; congruence|].
    intros _. by destruct (eq_str ty "SCHEMA").
Qed.

(** C9.  A call of [readMore] sets [stoppedState] only on a STATE line read
    when the clock is more than [flushSeconds] past [lastFlushTime], and
    then, and only then, moves [lastFlushTime] to that reading.  The run
    returns; a segment that stopped at a checkpoint leaves in
    [lastFlushTime] a clock reading taken while it ran, any other segment
    leaves it as it was; and of two consecutive segments of which the
    later stopped at a checkpoint, the earlier did too, under the same
    interval, and the two flush times differ by more than it. *)
Theorem checkpoint_flushes_are_spaced curConfig p :
  (∀ self q self' q',
     readMore json_loads self q = Ok (self', q') → stoppedState self = false →
     (stoppedState self' = true →
        ∃ f l rest,
          as_number (flushSeconds self) = Some f
          ∧ readline (stdin q) = (l, rest)
          ∧ line_is json_loads "STATE" l = true
          ∧ (f < now q (ticks q) - lastFlushTime q)%Q
          ∧ lastFlushTime q' = now q (ticks q))
     ∧ (stoppedState self' = false → lastFlushTime q' = lastFlushTime q))
  ∧ ∃ segs r,
      run_main curConfig p = Some (segs, r)
      ∧ (∀ s, s ∈ segs →
           if seg_stopped s
           then ∃ k, (ticks (seg_before s) ≤ k < ticks (seg_after s))%nat
                     ∧ lastFlushTime (seg_after s) = now (seg_before s) k
           else lastFlushTime (seg_after s) = lastFlushTime (seg_before s))
      ∧ ∀ K sK sK1,
          segs !! K = Some sK → segs !! S K = Some sK1 → seg_stopped sK1 = true →
          seg_stopped sK = true
          ∧ seg_flushSeconds sK1 = seg_flushSeconds sK
          ∧ ∃ f, as_number (seg_flushSeconds sK1) = Some f
                 ∧ (f < lastFlushTime (seg_after sK1) - lastFlushTime (seg_after sK))%Q.
Proof.
  split; [apply readMore_stop|].
  destruct (main_returns curConfig p) as (segs & r & Hm).
  exists segs, r. split; [done|].
  destruct (main_spec _ _ _ _ Hm) as (Hrun & _ & Hcfg).
  split.
  - intros s Hin. apply list_elem_of_lookup in Hin as [i Hi].
    destruct (run_spec_lookup _ _ _ _ Hrun Hi) as [ls (self & I & Est & _)].
    rewrite <- Est. destruct (stoppedState self) eqn:E.
    + destruct (inv_stopped _ _ _ _ _ _ _ I E)
        as [_ (ls' & l & f & k & _ & _ & _ & Hk & Ht & _)].
      by exists k.
    + by apply (inv_running _ _ _ _ _ _ _ I E).
  - intros K sK sK1 HK HK1 Hst.
    destruct (run_spec_next _ _ _ _ _ Hrun HK HK1) as [HstK Hb].
    split; [done|].
    destruct (run_spec_lookup _ _ _ _ Hrun HK1) as [ls1 (self1 & I1 & Est1 & _)].
    rewrite <- Est1 in Hst.
    destruct (inv_stopped _ _ _ _ _ _ _ I1 Hst)
      as [_ (ls' & l & f & k & _ & _ & Hf & _ & _ & Hlt)].
    split.
    + destruct (config_compression repr_other (config_file curConfig))
        as [config|e] eqn:Ec.
      * specialize (Hcfg config eq_refl).
        pose proof (proj1 (Forall_lookup _ _) Hcfg _ _ HK) as (-> & _).
        by pose proof (proj1 (Forall_lookup _ _) Hcfg _ _ HK1) as (-> & _).
      * unfold main in Hm. rewrite (main_loop_raise _ _ _ _ _ _ Ec) in Hm.
        injection Hm as <- <-. done.
    + exists f. split; [done|]. rewrite Hb in Hlt. done.
Qed.

End RunProofs.

(** * config_compression *)

Section CompressionProofs.
Variable repr_other : value -> string.

Lemma get_with_default (config_default : gmap string value) k v :
  config_default !! k = Some v →
  get (config_default ∪ {["compression" := VStr "none"]}) k = v.
Proof. intros H. unfold get. by rewrite (lookup_union_Some_l _ _ _ _ H). Qed.

Lemma lookup_with_default (config_default : gmap string value) k :
  k ≠ "compression" →
  (config_default ∪ {["compression" := VStr "none"]}) !! k = config_default !! k.
Proof.
  intros Hk. rewrite lookup_union, lookup_singleton_ne; [|done].
  by destruct (config_default !! k).
Qed.

Lemma get_compression_absent (config_default : gmap string value) :
  config_default !! "compression" = None →
  get (config_default ∪ {["compression" := VStr "none"]}) "compression" = VStr "none".
Proof.
  intros H. unfold get. rewrite lookup_union, H, lookup_singleton_eq. done.
Qed.

Lemma config_compression_suffix config_default s t f suffix :
  get (config_default ∪ {["compression" := VStr "none"]}) "compression" = VStr s →
  (lower s = "gzip" ∧ f = gzip_compress ∧ suffix = ".gz"
   ∨ lower s = "lzma" ∧ f = lzma_compress ∧ suffix = ".xz") →
  config_default !! "path_template" = Some (VStr t) →
  config_compression repr_other config_default
  = Ok (<["path_template" := VStr (t +:+ suffix)]>
          (<["open_func" := VFunc f]>
             (config_default ∪ {["compression" := VStr "none"]}))).
Proof.
  intros Hs Hcase Ht. unfold config_compression. rewrite Hs. cbn [format].
  assert (subscript (<["open_func" := VFunc f]>
                       (config_default ∪ {["compression" := VStr "none"]}))
            "path_template" = Ok (VStr t)) as Hsub.
  { unfold subscript. rewrite lookup_insert_ne; [|done].
    rewrite lookup_with_default; [|done]. by rewrite Ht. }
  destruct Hcase as [(-> & -> & ->)|(-> & -> & ->)]; cbn [String.eqb Ascii.eqb Bool.eqb];
    rewrite Hsub; reflexivity.
Qed.

Lemma config_compression_plain config_default s :
  get (config_default ∪ {["compression" := VStr "none"]}) "compression" = VStr s →
  lower s = "" ∨ lower s = "none" →
  config_compression repr_other config_default
  = Ok (<["open_func" := VFunc builtin_open]>
          (config_default ∪ {["compression" := VStr "none"]})).
Proof.
  intros Hs Hcase. unfold config_compression. rewrite Hs. cbn [format].
  by destruct Hcase as [-> | ->].
Qed.

Lemma config_compression_other config_default s :
  get (config_default ∪ {["compression" := VStr "none"]}) "compression" = VStr s →
  lower s ≠ "gzip" → lower s ≠ "lzma" → lower s ≠ "" → lower s ≠ "none" →
  config_compression repr_other config_default
  = Raise (NotImplementedError
             ("Compression type '" +:+ lower s
              +:+ "' is not supported. Expected: 'none', 'gzip', or 'lzma'")).
Proof.
  intros Hs H1 H2 H3 H4. unfold config_compression. rewrite Hs. cbn [format].
  apply String.eqb_neq in H1, H2, H3, H4. by rewrite H1, H2, H3, H4.
Qed.


Lemma loader_config_client c config : loader_config c config !! "client" = Some c.
Proof.
  unfold loader_config. rewrite lookup_union, lookup_insert_eq.
  by destruct (config !! "client").
Qed.
End CompressionProofs.

Section ScenarioProofs.
Variable repr_other : value -> string.
Variable environ : gmap string string.
Variable config_file : gmap string value -> gmap string value.
Variable create_session : gmap string value -> result unit.
Variable name_file : gmap string value -> list bytes -> FileMetadata.
Variable file_count : nat.
Variable size : Z.


(** C4, amended.  The run returns, and the client in the configuration of
    every segment is the one built with the proxy settings of the first
    pass.  Those are read from the environment whenever [HTTP_PROXY] is set
    to a non-empty string, whatever the configuration says: then they are
    [HTTP_PROXY] and [HTTPS_PROXY].  The configured [proxies] are used only
    when [HTTP_PROXY] is unset or empty and they are true as a condition;
    otherwise there are no proxy settings. *)
Theorem environment_proxy_overrides_config json_loads curConfig p :
  ∃ segs r,
    main json_loads repr_other environ config_file create_session name_file file_count size
      curConfig p = Some (segs, r)
    ∧ ∀ config,
        config_compression repr_other (config_file curConfig) = Ok config →
        (∀ s, s ∈ segs →
           ∃ endpoint,
             seg_config s !! "client"
             = Some (VClient endpoint (proxy_config config environ)))
        ∧ (truthy (environ_get environ "HTTP_PROXY") = true →
           proxy_config config environ
           = VDict [("http", environ_get environ "HTTP_PROXY");
                    ("https", environ_get environ "HTTPS_PROXY")])
        ∧ (truthy (environ_get environ "HTTP_PROXY") = false →
           proxy_config config environ
           = if truthy (get config "proxies") then get config "proxies"
             else VDict []).
Proof.
  destruct (main_returns json_loads repr_other environ config_file create_session
              name_file file_count size curConfig p) as (segs & r & Hm).
  exists segs, r. split; [done|]. intros config Ec.
  destruct (main_spec _ _ _ _ _ _ _ _ _ _ _ _ Hm) as (_ & _ & Hst).
  specialize (Hst config Ec). split; [|split].
  - intros s Hin. apply list_elem_of_lookup in Hin as [i Hi].
    pose proof (proj1 (Forall_lookup _ _) Hst _ _ Hi) as (_ & -> & _).
    rewrite loader_config_client. cbn [client_in]. unfold new_client. by eexists.
  - intros H. unfold proxy_config. by rewrite H.
  - intros H. unfold proxy_config. by rewrite H.
Qed.

End ScenarioProofs.


(** After a SCHEMA line and a STATE line read 700 seconds after import, a
    second segment starts and delivers the SCHEMA line again: the bytes
    delivered are not the input. *)
Lemma replayed_schema_is_delivered_twice :
  ∃ segs r,
    Example.main ∅ 8192 Example.config (Example.schema_line ++ Example.state_line)
      [0; 1; 700; 701]%Q = Some (segs, r)
    ∧ concat (concat (map seg_chunks segs))
      = Example.schema_line ++ Example.state_line ++ Example.schema_line
    ∧ concat (concat (map seg_chunks segs)) ≠ Example.schema_line ++ Example.state_line.
Proof.
  eexists _, _. split; [vm_compute; reflexivity|]. split; [vm_compute; reflexivity|].
  vm_compute. discriminate.
Qed.

Lemma segments_deliver_seed_then_input_witness :
  valid_size 8192
  ∧ ∃ segs r,
      Example.main ∅ 8192 Example.config (Example.schema_line ++ Example.state_line)
        [0; 1; 700; 701]%Q = Some (segs, r)
      ∧ (∀ i s, segs !! i = Some s →
           concat (seg_chunks s) = seg_seed s ++ seg_consumed s
           ∧ seg_seed s
             = [] ++ concat (List.filter (line_is Json.loads "SCHEMA")
                               (concat (map seg_lines (take i segs)))))
      ∧ ∃ rest, Example.schema_line ++ Example.state_line
                = concat (map seg_consumed segs) ++ rest
                ∧ (r = Ok tt → rest = []).
Proof.
  split; [right; lia|]. unfold Example.main.
  apply (segments_deliver_seed_then_input Json.loads Example.repr_other ∅
           Example.config_file Example.create_session Example.name_file Example.file_count 8192
           Example.config
           (import_module (Example.schema_line ++ Example.state_line)
              (Example.clock [0; 1; 700; 701]%Q))).
  right; lia.
Defined.

(** With [proxies] configured and [HTTP_PROXY] set, the client is built with
    the proxies of the environment. *)
Lemma configured_proxies_are_overridden :
  ∃ s r endpoint proxies,
    Example.main {["HTTP_PROXY" := "http://env"]} 8192
      (<["proxies" := VDict [("http", VStr "http://cfg")]]> Example.config)
      Example.scenario [0; 1; 2]%Q = Some ([s], r)
    ∧ seg_config s !! "proxies" = Some (VDict [("http", VStr "http://cfg")])
    ∧ seg_config s !! "client" = Some (VClient endpoint proxies)
    ∧ proxies = VDict [("http", VStr "http://env"); ("https", VNone)]
    ∧ proxies ≠ VDict [("http", VStr "http://cfg")].
Proof.
  eexists _, _, _, _. split; [vm_compute; reflexivity|].
  split; [vm_compute; reflexivity|]. split; [vm_compute; reflexivity|].
  split; [reflexivity|discriminate].
Qed.

(** * The retry decorator *)

Section RetryProofs.
Context {S A : Type}.
Variable draws : nat -> Q.

Lemma attempts_fails_then (target : S -> result A * S) k : ∀ left n st a st',
  fails_then k target st a st' → (k ≤ left)%nat →
  attempts draws 2 10 left n target st
  = mkRetried (Ok a) st' (1 + k + n)
      (map (λ i, full_jitter (draws i) (expo 2 10 i)) (seq n k)).
Proof.
  induction k as [|k IH]; intros left n st a st' H Hle; simpl in H.
  - destruct left; simpl; by rewrite H.
  - destruct H as (c & st1 & H1 & H2). destruct left as [|left]; [lia|].
    simpl. rewrite H1. simpl. rewrite (IH left (Datatypes.S n) st1 a st' H2); [|lia].
    simpl. f_equal. lia.
Qed.

Lemma attempts_fails (target : S -> result A * S) left : ∀ n st code st',
  fails (Datatypes.S left) target st code st' →
  attempts draws 2 10 left n target st
  = mkRetried (Raise (ClientError code)) st' (1 + left + n)
      (map (λ i, full_jitter (draws i) (expo 2 10 i)) (seq n left)).
Proof.
  induction left as [|left IH]; intros n st code st' H.
  - simpl in H. simpl. by rewrite H.
  - cbn [fails] in H. destruct H as (c & st1 & H1 & H2).
    simpl. rewrite H1. simpl. rewrite (IH (Datatypes.S n) st1 code st' H2).
    simpl. f_equal. lia.
Qed.

(** C7, amended.  A function under the retry decorator that fails four
    times with a [ClientError] and then returns is called five times and
    its value is returned; one that fails five times in a row is called
    five times and its last [ClientError] is raised.  Between the calls the
    decorator sleeps four times: the n-th sleep is a random part of the
    n-th backoff value; the backoff values are 10, 20, 40 and 80 seconds,
    strictly increasing, and each sleep lies between 0 and its backoff
    value. *)
Theorem retry_pattern_five_attempts (target : S -> result A * S) (st : S) :
  (∀ a st', fails_then 4 target st a st' →
     _retry_pattern draws target st
     = mkRetried (Ok a) st' 5
         (map (λ i, full_jitter (draws i) (expo 2 10 i)) [0; 1; 2; 3]%nat))
  ∧ (∀ code st', fails 5 target st code st' →
       _retry_pattern draws target st
       = mkRetried (Raise (ClientError code)) st' 5
           (map (λ i, full_jitter (draws i) (expo 2 10 i)) [0; 1; 2; 3]%nat))
  ∧ (expo 2 10 0 == 10 ∧ expo 2 10 1 == 20 ∧ expo 2 10 2 == 40 ∧ expo 2 10 3 == 80)%Q
  ∧ (∀ i, (i < 4)%nat → (0 <= draws i)%Q → (draws i < 1)%Q →
       (0 <= full_jitter (draws i) (expo 2 10 i))%Q
       ∧ (full_jitter (draws i) (expo 2 10 i) < expo 2 10 i)%Q).
Proof.
  split; [|split; [|split]].
  - intros a st' H. unfold _retry_pattern, on_exception. cbn [Nat.sub].
    by rewrite (attempts_fails_then target 4 4 0 st a st' H).
  - intros code st' H. unfold _retry_pattern, on_exception. cbn [Nat.sub].
    by rewrite (attempts_fails target 4 0 st code st' H).
  - repeat split; reflexivity.
  - intros i Hi H0 H1. unfold full_jitter.
    assert (0 < expo 2 10 i)%Q as Hpos.
    { do 4 (destruct i as [|i]; [reflexivity|]). lia. }
    split; [nra|nra].
Qed.
End RetryProofs.

(** A function that fails four times and then returns, under draws that
    make the second sleep shorter than the first. *)
Lemma jittered_sleeps_not_increasing :
  let target := λ n : nat,
    if (n <? 4)%nat then (Raise (ClientError "SlowDown"), Datatypes.S n)
    else (Ok n, Datatypes.S n) in
  let r := _retry_pattern (Example.clock [1 # 2; 1 # 10; 1 # 2; 1 # 2]%Q) target 0%nat in
  fails_then 4 target 0%nat 4%nat 5%nat
  ∧ outcome r = Ok 4%nat ∧ tries r = 5%nat
  ∧ ∃ w0 w1 rest, waits r = w0 :: w1 :: rest ∧ (w0 == 5)%Q ∧ (w1 == 2)%Q ∧ (w1 < w0)%Q.
Proof.
  cbv zeta. split; [|split; [|split]].
  - simpl. repeat (eexists _, _; split; [reflexivity|]). reflexivity.
  - vm_compute; reflexivity.
  - vm_compute; reflexivity.
  - eexists _, _, _. split; [vm_compute; reflexivity|].
    split; [reflexivity|]. split; reflexivity.
Qed.

Section UploadProofs.
Variable repr_other : value -> string.
Variables gzip lzma : bytes -> bytes.
Variable json_dumps : value -> bytes.
Variable open_error : string -> exn.
Variable draws : nat -> Q.

Lemma get_encryption_args_not_ClientError config e :
  get_encryption_args repr_other config = Raise e → is_ClientError e = false.
Proof.
  unfold get_encryption_args.
  destruct (str_lower _) as [ty|e'] eqn:E; simpl.
  - destruct (String.eqb ty "none"); [intros; discriminate|].
    destruct (String.eqb ty "kms"); [destruct (truthy _); intros; discriminate|].
    by intros [= <-].
  - intros [= <-]. revert E.
    destruct (get_default config "encryption_type" (VStr "none")); simpl;
      intros [= <-]; done.
Qed.

Lemma client_of_not_ClientError config e :
  client_of config = Raise e → is_ClientError e = false.
Proof.
  unfold client_of, subscript. destruct (config !! "client") as [c|]; simpl.
  - destruct c; try done; by intros [= <-].
  - by intros [= <-].
Qed.

Lemma upload_file_body_idle config fm w :
  ¬ uploading config fm w → upload_file_body repr_other config fm w = (Ok tt, w).
Proof.
  intros H. unfold upload_file_body.
  destruct (truthy (get_default config "local" (VBool false))) eqn:El; [done|].
  destruct (0 <? size_or_zero w (absolute_path fm))%nat eqn:Es; [|done].
  exfalso. apply H. split; [done|]. by apply Nat.ltb_lt.
Qed.

Lemma upload_file_body_uploading config fm w :
  uploading config fm w →
  match upload_file_body repr_other config fm w with
  | (Ok _, w') =>
      service w (length (requests w)) = None
      ∧ requests w' = requests w ++ [upload_call repr_other config fm]
      ∧ service w' = service w
      ∧ files w'
        = if truthy (get_default config "remove_file" (VBool true))
          then delete (absolute_path fm) (files w) else files w
  | (Raise e, w') =>
      service w' = service w ∧ files w' = files w
      ∧ ((requests w' = requests w ++ [upload_call repr_other config fm]
          ∧ service w (length (requests w)) = Some e
          ∧ is_ok (get_encryption_args repr_other config) = true
          ∧ is_ok (client_of config) = true)
         ∨ (requests w' = requests w ∧ is_ClientError e = false
            ∧ (get_encryption_args repr_other config = Raise e
               ∨ client_of config = Raise e)))
  end.
Proof.
  intros [Hl Hs]. unfold upload_file_body, upload_call. rewrite Hl.
  apply Nat.ltb_lt in Hs as Hs'. rewrite Hs'. cbn [negb andb].
  destruct (get_encryption_args repr_other config) as [[desc args]|e] eqn:Ee; simpl.
  2:{ split; [done|]. split; [done|]. right. split; [done|].
      split; [by apply get_encryption_args_not_ClientError in Ee|by left]. }
  destruct (client_of config) as [c|e] eqn:Ec; simpl.
  2:{ split; [done|]. split; [done|]. right. split; [done|].
      split; [by apply client_of_not_ClientError in Ec|by right]. }
  unfold send. destruct (service w (length (requests w))) as [e0|] eqn:Esv; simpl.
  { split; [done|]. split; [done|]. left. done. }
  destruct (truthy (get_default config "remove_file" (VBool true))); [|done].
  unfold unlink. simpl. unfold size_or_zero in Hs.
  destruct (files w !! absolute_path fm); [done|lia].
Qed.

Lemma uploading_after config fm w w' :
  files w' = files w → uploading config fm w → uploading config fm w'.
Proof. intros E [H1 H2]. split; [done|]. unfold size_or_zero in *. by rewrite E. Qed.

Lemma upload_attempts config fm left : ∀ n w,
  uploading config fm w →
  let r := attempts draws 2 10 left n (upload_file_body repr_other config fm) w in
  service (final r) = service w
  ∧ ∃ k, requests (final r) = requests w ++ replicate k (upload_call repr_other config fm)
         ∧ (k ≤ Datatypes.S left)%nat
         ∧ match outcome r with
           | Ok _ =>
               (1 ≤ k)%nat
               ∧ service w (length (requests w) + k - 1)%nat = None
               ∧ files (final r)
                 = if truthy (get_default config "remove_file" (VBool true))
                   then delete (absolute_path fm) (files w) else files w
           | Raise e => files (final r) = files w
           end.
Proof.
  assert (∀ w e w', uploading config fm w →
            upload_file_body repr_other config fm w = (Raise e, w') →
            service w' = service w ∧ files w' = files w
            ∧ ∃ k, requests w' = requests w ++ replicate k (upload_call repr_other config fm)
                   ∧ (k ≤ 1)%nat
                   ∧ (is_ClientError e = true → k = 1%nat)) as Hraise.
  { intros w e w' Hup Eb.
    pose proof (upload_file_body_uploading config fm w Hup) as Hb. rewrite Eb in Hb.
    destruct Hb as (H1 & H2 & [[H3 _]|(H3 & Hn & _)]).
    - split; [done|]. split; [done|]. exists 1%nat. by rewrite H3.
    - split; [done|]. split; [done|]. exists 0%nat. rewrite H3, app_nil_r.
      split; [done|]. split; [lia|]. congruence. }
  induction left as [|left IH]; intros n w Hup; cbn [attempts];
    pose proof (upload_file_body_uploading config fm w Hup) as Hb;
    destruct (upload_file_body repr_other config fm w) as [[[]|e] w'] eqn:Eb.
  - destruct Hb as (H1 & H2 & H3 & H4). cbn. split; [done|]. exists 1%nat.
    split; [done|]. split; [lia|]. split; [done|]. split; [|done].
    by replace (length (requests w) + 1 - 1)%nat with (length (requests w)) by lia.
  - destruct (Hraise _ _ _ Hup Eb) as (H1 & H2 & k & H3 & Hk & _).
    destruct (is_ClientError e); cbn; (split; [done|]); exists k;
      (split; [done|]); (split; [lia|done]).
  - destruct Hb as (H1 & H2 & H3 & H4). cbn. split; [done|]. exists 1%nat.
    split; [done|]. split; [lia|]. split; [done|]. split; [|done].
    by replace (length (requests w) + 1 - 1)%nat with (length (requests w)) by lia.
  - destruct (Hraise _ _ _ Hup Eb) as (H1 & H2 & k0 & H3 & Hk0 & Hk1).
    destruct (is_ClientError e) eqn:Ece; cbn.
    + rewrite (Hk1 eq_refl) in H3.
      destruct (IH (Datatypes.S n) w' (uploading_after _ _ _ _ H2 Hup))
        as (Hsv & k & Hreq & Hk & Hout).
      split; [by rewrite Hsv|]. exists (Datatypes.S k). split.
      { rewrite Hreq, H3, <- app_assoc. done. }
      split; [lia|].
      destruct (outcome _) as [[]|e'].
      * destruct Hout as (Hk' & Hs & Hf). split; [lia|]. split.
        { rewrite H1, H3, length_app in Hs. simpl in Hs.
          by replace (length (requests w) + Datatypes.S k - 1)%nat
            with (length (requests w) + 1 + k - 1)%nat by lia. }
        by rewrite Hf, H2.
      * by rewrite Hout.
    + split; [done|]. exists k0. split; [done|]. split; [lia|done].
Qed.

Lemma uploading_dec config fm w : uploading config fm w ∨ ¬ uploading config fm w.
Proof.
  unfold uploading.
  destruct (truthy (get_default config "local" (VBool false))); [right; by intros []|].
  destruct (size_or_zero w (absolute_path fm)); [right; intros []; lia|left].
  split; [done|lia].
Qed.

Lemma upload_file_idle config fm w :
  ¬ uploading config fm w →
  upload_file repr_other draws config fm w = mkRetried (Ok tt) w 1 [].
Proof.
  intros H. unfold upload_file, _retry_pattern, on_exception. cbn [Nat.sub attempts].
  by rewrite (upload_file_body_idle _ _ _ H).
Qed.


(** C8.  [upload_file] calls the client only when [local] is false and the
    local file exists with a size above zero.  With [local] true, or with
    a file that is missing or empty, it returns at once without an error,
    makes no call and leaves the files as they are.  When it returns after
    an upload and [remove_file] is true, the local file is gone, and only
    that file; when [remove_file] is false it is kept. *)
Theorem upload_file_gates config fm w :
  let r := upload_file repr_other draws config fm w in
  (truthy (get_default config "local" (VBool false)) = true
   ∨ size_or_zero w (absolute_path fm) = 0%nat →
   r = mkRetried (Ok tt) w 1 [])
  ∧ (requests (final r) ≠ requests w →
     truthy (get_default config "local" (VBool false)) = false
     ∧ (0 < size_or_zero w (absolute_path fm))%nat)
  ∧ (truthy (get_default config "local" (VBool false)) = false →
     (0 < size_or_zero w (absolute_path fm))%nat →
     outcome r = Ok tt →
     (∃ k, (1 ≤ k ≤ 5)%nat
           ∧ requests (final r) = requests w ++ replicate k (upload_call repr_other config fm)
           ∧ service w (length (requests w) + k - 1)%nat = None)
     ∧ files (final r)
       = if truthy (get_default config "remove_file" (VBool true))
         then delete (absolute_path fm) (files w) else files w).
Proof.
  cbv zeta. split; [|split].
  - intros H. apply upload_file_idle. intros [H1 H2]. destruct H as [H|H].
    + congruence.
    + lia.
  - intros H. destruct (uploading_dec config fm w) as [Hu|Hu]; [done|].
    rewrite (upload_file_idle _ _ _ Hu) in H. done.
  - intros Hl Hs Hout. unfold upload_file, _retry_pattern, on_exception in *.
    cbn [Nat.sub] in *.
    destruct (upload_attempts config fm 4 0 w (conj Hl Hs)) as (_ & k & Hreq & Hk & Ho).
    rewrite Hout in Ho. destruct Ho as (Hk1 & Hsv & Hf).
    split; [|done]. exists k. split; [lia|]. done.
Qed.

(** C10.  When the configuration has no [remove_file] key, [local] is
    false and the local file is not empty, an [upload_file] that returns
    has deleted the local file and no other. *)
Theorem upload_file_removes_by_default config fm w :
  config !! "remove_file" = None →
  truthy (get_default config "local" (VBool false)) = false →
  (0 < size_or_zero w (absolute_path fm))%nat →
  outcome (upload_file repr_other draws config fm w) = Ok tt →
  files (final (upload_file repr_other draws config fm w))
  = delete (absolute_path fm) (files w)
  ∧ files (final (upload_file repr_other draws config fm w)) !! absolute_path fm = None.
Proof.
  intros Hr Hl Hs Hout. unfold upload_file, _retry_pattern, on_exception in *.
  cbn [Nat.sub] in *.
  destruct (upload_attempts config fm 4 0 w (conj Hl Hs)) as (_ & k & _ & _ & Ho).
  rewrite Hout in Ho. destruct Ho as (_ & _ & Hf).
  unfold get_default in Hf. rewrite Hr in Hf. cbn [default truthy] in Hf. rewrite Hf.
  split; [done|]. apply lookup_delete_eq.
Qed.

(** * put_object and the compression schemes *)

Lemma put_object_body_compressed config fm data w f desc args c :
  config !! "open_func" = Some (VFunc f) → f ≠ builtin_open →
  get_encryption_args repr_other config = Ok (desc, args) →
  client_of config = Ok c →
  put_object_body repr_other gzip lzma json_dumps open_error config fm data w
  = send (PutObject
            (BytesBody ((match f with gzip_compress => gzip | _ => lzma end)
                          (join_lines json_dumps data)))
            (get config "s3_bucket") (relative_path fm)
            (default (VDict []) (assoc_last "ExtraArgs" args))) w.
Proof.
  intros Hf Hne He Hc. unfold put_object_body. rewrite He, Hc. cbn [lift].
  unfold subscript. rewrite Hf. cbn [lift call_open_func].
  by destruct f.
Qed.

(** C3, amended.  [config_compression] compares the configured scheme in
    lower case.  [gzip] selects [gzip.compress] and appends [.gz] to the
    path template, [lzma] selects [lzma.compress] and appends [.xz]; with
    [none], the empty string or no [compression] key the path template is
    left as it is; any other string makes [config_compression] itself
    raise [NotImplementedError].  Under [gzip] and [lzma], [put_object]
    sends the compressed JSON lines, which the matching decoder turns back
    into the lines. *)
Theorem compression_schemes (gunzip unlzma : bytes → bytes) :
  (∀ x, gunzip (gzip x) = x) →
  (∀ x, unlzma (lzma x) = x) →
  (∀ config_default s t,
     config_default !! "compression" = Some (VStr s) →
     config_default !! "path_template" = Some (VStr t) →
     (lower s = "gzip" →
      ∃ config, config_compression repr_other config_default = Ok config
                ∧ config !! "open_func" = Some (VFunc gzip_compress)
                ∧ config !! "path_template" = Some (VStr (t +:+ ".gz")))
     ∧ (lower s = "lzma" →
        ∃ config, config_compression repr_other config_default = Ok config
                  ∧ config !! "open_func" = Some (VFunc lzma_compress)
                  ∧ config !! "path_template" = Some (VStr (t +:+ ".xz"))))
  ∧ (∀ config_default,
       (config_default !! "compression" = None
        ∨ ∃ s, config_default !! "compression" = Some (VStr s)
               ∧ (lower s = "none" ∨ lower s = "")) →
       ∃ config, config_compression repr_other config_default = Ok config
                 ∧ config !! "path_template" = config_default !! "path_template")
  ∧ (∀ config_default s,
       config_default !! "compression" = Some (VStr s) →
       lower s ≠ "gzip" → lower s ≠ "lzma" → lower s ≠ "" → lower s ≠ "none" →
       ∃ msg, config_compression repr_other config_default
              = Raise (NotImplementedError msg))
  ∧ (∀ config fm data w desc args c,
       get_encryption_args repr_other config = Ok (desc, args) →
       client_of config = Ok c →
       (config !! "open_func" = Some (VFunc gzip_compress) →
        put_object_body repr_other gzip lzma json_dumps open_error config fm data w
        = send (PutObject (BytesBody (gzip (join_lines json_dumps data)))
                  (get config "s3_bucket") (relative_path fm)
                  (default (VDict []) (assoc_last "ExtraArgs" args))) w
        ∧ gunzip (gzip (join_lines json_dumps data)) = join_lines json_dumps data)
       ∧ (config !! "open_func" = Some (VFunc lzma_compress) →
          put_object_body repr_other gzip lzma json_dumps open_error config fm data w
          = send (PutObject (BytesBody (lzma (join_lines json_dumps data)))
                    (get config "s3_bucket") (relative_path fm)
                    (default (VDict []) (assoc_last "ExtraArgs" args))) w
          ∧ unlzma (lzma (join_lines json_dumps data)) = join_lines json_dumps data)).
Proof.
  intros Hgz Hlz. split; [|split; [|split]].
  - intros config_default s t Hs Ht. split; intros Hl.
    + eexists. split.
      { apply (config_compression_suffix _ _ s t gzip_compress ".gz");
          [by apply get_with_default|by left|done]. }
      split; [|by rewrite lookup_insert_eq].
      rewrite lookup_insert_ne; [|done]. by rewrite lookup_insert_eq.
    + eexists. split.
      { apply (config_compression_suffix _ _ s t lzma_compress ".xz");
          [by apply get_with_default|by right|done]. }
      split; [|by rewrite lookup_insert_eq].
      rewrite lookup_insert_ne; [|done]. by rewrite lookup_insert_eq.
  - intros config_default H. eexists. split.
    + destruct H as [H|(s & H & Hs)].
      * apply (config_compression_plain _ _ "none");
          [by apply get_compression_absent|by right].
      * apply (config_compression_plain _ _ s); [by apply get_with_default|].
        by destruct Hs; [right|left].
    + rewrite lookup_insert_ne; [|done]. by apply lookup_with_default.
  - intros config_default s Hs H1 H2 H3 H4. eexists.
    apply (config_compression_other _ _ s); [by apply get_with_default|done..].
  - intros config fm data w desc args c He Hc. split; intros Hf.
    + split; [|apply Hgz].
      by rewrite (put_object_body_compressed _ _ _ _ gzip_compress desc args c).
    + split; [|apply Hlz].
      by rewrite (put_object_body_compressed _ _ _ _ lzma_compress desc args c).
Qed.

End UploadProofs.

(** The empty string is no scheme of the three, and [config_compression]
    takes it without raising. *)
Lemma empty_scheme_is_accepted :
  ∃ config,
    config_compression Example.repr_other
      {[ "compression" := VStr ""; "path_template" := VStr "out.json" ]} = Ok config
    ∧ config !! "path_template" = Some (VStr "out.json").
Proof.
  eexists. split.
  - apply (config_compression_plain _ _ ""); [vm_compute; reflexivity|by left].
  - vm_compute; reflexivity.
Qed.

Lemma compression_schemes_witness :
  (∀ x, Example.untag (Example.tag x) = x)
  ∧ (∀ x : bytes, rev (rev x) = x)
  ∧ ∃ config,
      config_compression Example.repr_other
        {[ "compression" := VStr "GZip"; "path_template" := VStr "out.json" ]}
      = Ok config
      ∧ config !! "open_func" = Some (VFunc gzip_compress)
      ∧ config !! "path_template" = Some (VStr "out.json.gz").
Proof.
  split; [reflexivity|]. split; [apply rev_involutive|].
  refine (proj1 (proj1 (compression_schemes Example.repr_other Example.tag (@rev byte)
                          Example.json_dumps Example.open_error Example.untag (@rev byte) _ _)
                   {[ "compression" := VStr "GZip"; "path_template" := VStr "out.json" ]}
                   "GZip" "out.json" _ _) _).
  - reflexivity.
  - apply rev_involutive.
  - vm_compute; reflexivity.
  - vm_compute; reflexivity.
  - reflexivity.
Defined.

Lemma upload_file_removes_by_default_witness :
  let config : gmap string value :=
    {[ "client" := VClient VNone (VDict []); "s3_bucket" := VStr "bucket" ]} in
  let fm := mkFileMetadata "/tmp/a.json" "a.json" in
  let w := mkWorld {[ "/tmp/a.json" := b "{}" ]} [] (λ _, None) in
  files (final (upload_file Example.repr_other (λ _, 0%Q) config fm w))
  = delete "/tmp/a.json" (files w)
  ∧ files (final (upload_file Example.repr_other (λ _, 0%Q) config fm w)) !! "/tmp/a.json"
    = None.
Proof.
  cbv zeta. apply upload_file_removes_by_default.
  - vm_compute; reflexivity.
  - vm_compute; reflexivity.
  - vm_compute; lia.
  - vm_compute; reflexivity.
Defined.

Section ScenarioUploadProofs.
Variable repr_other : value -> string.
Variable environ : gmap string string.
Variable config_file : gmap string value -> gmap string value.
Variable create_session : gmap string value -> result unit.
Variable name_file : gmap string value -> list bytes -> FileMetadata.
Variable file_count : nat.
Variable size : Z.





End ScenarioUploadProofs.


Section EncryptionProofs.
Variable repr_other : value -> string.

(** X1.  [get_encryption_args] reads [encryption_type] in any letter
    case.  Absent or [none] gives no description and no arguments; [kms]
    gives the server-side-encryption argument, with the key id when
    [encryption_key] is true as a condition and without it otherwise; any
    other ASCII string raises [NotImplementedError]; a value that is not a
    string raises [AttributeError]. *)
Theorem encryption_args_by_type (config : gmap string value) :
  (config !! "encryption_type" = None
   ∨ (∃ s, config !! "encryption_type" = Some (VStr s) ∧ lower s = "none") →
   get_encryption_args repr_other config = Ok ("", []))
  ∧ (∀ s, config !! "encryption_type" = Some (VStr s) → lower s = "kms" →
       get_encryption_args repr_other config
       = if truthy (get config "encryption_key")
         then Ok (" using KMS encryption key ID '"
                    +:+ format repr_other (get config "encryption_key") +:+ "'",
                  [("ExtraArgs",
                    VDict [("ServerSideEncryption", VStr "aws:kms");
                           ("SSEKMSKeyId", get config "encryption_key")])])
         else Ok (" using default KMS encryption",
                  [("ExtraArgs", VDict [("ServerSideEncryption", VStr "aws:kms")])]))
  ∧ (∀ s, config !! "encryption_type" = Some (VStr s) → is_ascii s = true →
       lower s ≠ "none" → lower s ≠ "kms" →
       ∃ msg, get_encryption_args repr_other config = Raise (NotImplementedError msg))
  ∧ (∀ v, config !! "encryption_type" = Some v → (∀ s, v ≠ VStr s) →
       get_encryption_args repr_other config = Raise AttributeError).
Proof.
  unfold get_encryption_args, get_default. split; [|split; [|split]].
  - intros [->|(s & -> & Hs)]; [done|]. cbn. by rewrite Hs.
  - intros s -> Hs. cbn. rewrite Hs. cbn. by destruct (truthy _).
  - intros s -> _ H1 H2. cbn. apply String.eqb_neq in H1, H2. rewrite H1. cbn.
    rewrite H2. by eexists.
  - intros v -> Hv. destruct v; try done. by destruct (Hv s).
Qed.
End EncryptionProofs.

Section RetryInvariants.
Context {S A : Type}.
Variable draws : nat -> Q.

Lemma attempts_bounds (target : S -> result A * S) left : ∀ n st,
  let r := attempts draws 2 10 left n target st in
  (1 + n ≤ tries r ≤ 1 + n + left)%nat
  ∧ (length (waits r) + 1 + n = tries r)%nat
  ∧ (∀ e, outcome r = Raise e → is_ClientError e = true →
       tries r = (1 + n + left)%nat)
  ∧ (∀ a st', target st = (Ok a, st') → r = mkRetried (Ok a) st' (1 + n) [])
  ∧ (∀ e st', target st = (Raise e, st') → is_ClientError e = false →
       r = mkRetried (Raise e) st' (1 + n) []).
Proof.
  induction left as [|left IH]; intros n st; cbn [attempts];
    destruct (target st) as [[a|e] st1] eqn:Et; cbn zeta.
  - cbn. split; [lia|]. split; [lia|]. split; [done|]. split.
    + by intros ? ? [= <- <-].
    + intros; discriminate.
  - destruct (is_ClientError e) eqn:Ee; cbn.
    + split; [lia|]. split; [lia|]. split; [intros; lia|]. split.
      * intros; discriminate.
      * intros ? ? [= <- <-]. congruence.
    + split; [lia|]. split; [lia|]. split; [|split].
      * intros e' [= <-]. congruence.
      * intros; discriminate.
      * by intros ? ? [= <- <-].
  - cbn. split; [lia|]. split; [lia|]. split; [done|]. split.
    + by intros ? ? [= <- <-].
    + intros; discriminate.
  - destruct (is_ClientError e) eqn:Ee; cbn.
    + destruct (IH (Datatypes.S n) st1) as (H1 & H2 & H3 & _).
      split; [lia|]. split; [lia|]. split; [|split].
      * intros e' He' Hc. rewrite (H3 e' He' Hc). lia.
      * intros; discriminate.
      * intros ? ? [= <- <-]. congruence.
    + split; [lia|]. split; [lia|]. split; [|split].
      * intros e' [= <-]. congruence.
      * intros; discriminate.
      * by intros ? ? [= <- <-].
Qed.

Lemma attempts_trace (target : S -> result A * S) left : ∀ n st,
  let r := attempts draws 2 10 left n target st in
  let state k := Nat.iter k (λ s, (target s).2) st in
  ∃ j, (j ≤ left)%nat
       ∧ tries r = (1 + n + j)%nat
       ∧ outcome r = (target (state j)).1
       ∧ final r = state (Datatypes.S j)
       ∧ (∀ k, (k < j)%nat →
            ∃ e, (target (state k)).1 = Raise e ∧ is_ClientError e = true)
       ∧ ((j < left)%nat → ∀ e, outcome r = Raise e → is_ClientError e = false).
Proof.
  cbv zeta.
  induction left as [|left IH]; intros n st; cbn [attempts];
    destruct (target st) as [[a|e] st1] eqn:Et.
  - exists 0%nat. cbn. rewrite Et. split; [lia|]. split; [lia|]. split; [done|].
    split; [done|]. split; intros; lia.
  - exists 0%nat. destruct (is_ClientError e); cbn; rewrite Et;
      (split; [lia|]); (split; [lia|]); (split; [done|]); (split; [done|]);
      split; intros; lia.
  - exists 0%nat. cbn. rewrite Et. split; [lia|]. split; [lia|]. split; [done|].
    split; [done|]. split; [intros; lia|]. intros; discriminate.
  - destruct (is_ClientError e) eqn:Ee; cbn.
    + destruct (IH (Datatypes.S n) st1) as (j & Hj & Ht & Ho & Hf & Hbefore & Hlast).
      assert (∀ k, Nat.iter k (λ s, (target s).2) st1
                   = Nat.iter (Datatypes.S k) (λ s, (target s).2) st) as Hshift.
      { intros k. rewrite Nat.iter_succ_r. by rewrite Et. }
      exists (Datatypes.S j). split; [lia|]. split; [lia|].
      split; [by rewrite Ho, Hshift|]. split; [by rewrite Hf, Hshift|]. split.
      * intros k Hk. destruct k as [|k].
        { exists e. cbn. by rewrite Et. }
        rewrite <- Hshift. apply Hbefore. lia.
      * intros Hlt. apply Hlast. lia.
    + exists 0%nat. cbn. rewrite Et. split; [lia|]. split; [lia|]. split; [done|].
      split; [done|]. split; [intros; lia|]. intros _ e' [= <-]. done.
Qed.

(** X2.  Whatever the decorated function does, the retry decorator calls
    it at least once and at most five times, each call on the state the
    call before left, and sleeps once between two calls.  What it returns
    or raises is what the last call returned or raised, and every call
    before the last raised a [ClientError]: a call that returns, or that
    raises another exception, is the last one, whichever call it is.  A
    [ClientError] is raised only after the fifth call. *)
Theorem retry_pattern_bounds (target : S -> result A * S) (st : S) :
  let r := _retry_pattern draws target st in
  let state k := Nat.iter k (λ s, (target s).2) st in
  (1 ≤ tries r ≤ 5)%nat
  ∧ (length (waits r) + 1 = tries r)%nat
  ∧ outcome r = (target (state (tries r - 1)%nat)).1
  ∧ final r = state (tries r)
  ∧ (∀ k, (k < tries r - 1)%nat →
       ∃ e, (target (state k)).1 = Raise e ∧ is_ClientError e = true)
  ∧ (∀ e, outcome r = Raise e → is_ClientError e = true → tries r = 5%nat)
  ∧ (∀ a st', target st = (Ok a, st') → r = mkRetried (Ok a) st' 1 [])
  ∧ (∀ e st', target st = (Raise e, st') → is_ClientError e = false →
       r = mkRetried (Raise e) st' 1 []).
Proof.
  cbv zeta. unfold _retry_pattern, on_exception. cbn [Nat.sub].
  destruct (attempts_bounds target 4 0 st) as (H1 & H2 & H3 & H4 & H5).
  destruct (attempts_trace target 4 0 st) as (j & Hj & Ht & Ho & Hf & Hbefore & _).
  cbn [Nat.add] in Ht. rewrite Ht in *.
  replace (Datatypes.S j - 1)%nat with j by lia.
  split; [lia|]. split; [lia|]. split; [done|]. split; [done|].
  split; [done|]. split; [|split]; done.
Qed.
End RetryInvariants.

Section ReadProofs.
Variable json_loads : bytes -> result value.

Lemma slice_to_length (x : bytes) n : 0 <= n → Z.of_nat (length (slice_to x n)) <= n.
Proof.
  intros Hn. unfold slice_to, slice_index.
  destruct (n <? 0) eqn:E; [apply Z.ltb_lt in E; lia|].
  rewrite length_take. lia.
Qed.

(** X3.  [read(size)] never returns more bytes than asked for: at most
    [size] of them for a size that is not negative, at most 8192 for
    [-1]. *)
Theorem read_at_most_size self size p data self' p' :
  read json_loads self size p = Ok (data, self', p') →
  (0 <= size → Z.of_nat (length data) <= size)
  ∧ (size = -1 → Z.of_nat (length data) <= 8192).
Proof.
  intros H. unfold read in H.
  destruct (if Z.of_nat (length (buffer self)) <? _ then _ else _)
    as [[self1 p1]|e]; [|done].
  cbn in H. destruct (length (buffer self1) =? 0)%nat.
  - injection H as <- <- <-. simpl. split; intros; lia.
  - injection H as <- <- <-. split.
    + intros Hs. destruct (size =? -1) eqn:E; [apply Z.eqb_eq in E; lia|].
      by apply slice_to_length.
    + intros ->. cbn [Z.eqb]. by apply (slice_to_length _ 8192).
Qed.

Lemma readMore_conserves self p self' p' :
  readMore json_loads self p = Ok (self', p') →
  ∃ l, buffer self' = buffer self ++ l
       ∧ stdin p = l ++ stdin p'
       ∧ (l = [] ∨ readline (stdin p) = (l, stdin p'))
       ∧ closed self' = closed self.
Proof.
  intros H. unfold readMore in H.
  destruct (empty self || closed self).
  { injection H as <- <-. exists []. by rewrite app_nil_r; auto. }
  destruct (readline (stdin p)) as [l rest] eqn:Er.
  pose proof (readline_app _ _ _ Er) as Happ.
  destruct l as [|c0 l0].
  { injection H as <- <-. exists []. rewrite app_nil_r. simpl.
    apply readline_empty in Er as [E ->]. rewrite E. auto. }
  destruct (json_loads (c0 :: l0)) as [line|]; [|done]. simpl in H.
  destruct (getitem line "type") as [ty|]; [|done]. simpl in H.
  assert (∀ (self1 : WrappedIoBuffer) (p1 : Process),
    buffer self1 = buffer self → closed self1 = closed self → stdin p1 = rest →
    Ok (set_buffer self1 (buffer self1 ++ c0 :: l0),
        if eq_str ty "SCHEMA"
        then set_curSchemaBuffer p1 (curSchemaBuffer p1 ++ c0 :: l0) else p1)
    = Ok (self', p') →
    ∃ l, buffer self' = buffer self ++ l ∧ stdin p = l ++ stdin p'
         ∧ (l = [] ∨ (c0 :: l0, rest) = (l, stdin p'))
         ∧ closed self' = closed self) as Hk.
  { intros self1 p1 Hb Hc Hs [= <- <-]. exists (c0 :: l0). simpl. rewrite Hb.
    replace (stdin (if eq_str ty "SCHEMA" then _ else p1)) with rest
      by (destruct (eq_str ty "SCHEMA"); by rewrite <- Hs).
    auto. }
  destruct (eq_str ty "STATE").
  - unfold time_time in H. simpl in H.
    destruct (float_gt _ (flushSeconds self)) as [late|]; [|done]. simpl in H.
    destruct late; simpl in H.
    + by apply (Hk (set_stoppedState (set_empty self true) true)
                  (set_lastFlushTime (set_ticks (set_stdin p rest) (S (ticks p)))
                     (now p (ticks p)))).
    + by apply (Hk self (set_ticks (set_stdin p rest) (S (ticks p)))).
  - simpl in H. by apply (Hk self (set_stdin p rest)).
Qed.

(** X4.  A [read] that returns takes at most one line from the input and
    loses nothing: the bytes it returns followed by the bytes it keeps
    are the bytes it had followed by that line, and what it took is the
    head of what the input held. *)
Theorem read_conserves_bytes self size p data self' p' :
  read json_loads self size p = Ok (data, self', p') →
  ∃ l, data ++ buffer self' = buffer self ++ l
       ∧ stdin p = l ++ stdin p'
       ∧ (l = [] ∨ readline (stdin p) = (l, stdin p')).
Proof.
  intros H. unfold read in H.
  assert (∃ self1 l, buffer self1 = buffer self ++ l
            ∧ (∃ p1, stdin p = l ++ stdin p1
                     ∧ (l = [] ∨ readline (stdin p) = (l, stdin p1))
                     ∧ (if (length (buffer self1) =? 0)%nat
                        then Ok ([], set_closed self1 true, p1)
                        else Ok (slice_to (buffer self1) (if size =? -1 then 8192 else size),
                                 set_buffer self1
                                   (slice_from (buffer self1)
                                      (if size =? -1 then 8192 else size)), p1))
                       = Ok (data, self', p')))
    as (self1 & l & Hb & p1 & Hs & Hl & H1).
  { destruct (Z.of_nat (length (buffer self)) <? _).
    - destruct (readMore json_loads self p) as [[self1 p1]|e] eqn:Erm; [|done].
      destruct (readMore_conserves _ _ _ _ Erm) as (l & Hb & Hs & Hl & _).
      exists self1, l. split; [done|]. exists p1. done.
    - exists self, []. rewrite app_nil_r. split; [done|]. exists p. auto. }
  exists l. destruct (length (buffer self1) =? 0)%nat eqn:E0.
  - injection H1 as <- <- <-. apply Nat.eqb_eq, length_zero_iff_nil in E0.
    simpl. by rewrite <- Hb.
  - injection H1 as <- <- <-. simpl. by rewrite slice_take_drop.
Qed.

(** X5.  A closed [WrappedIoBuffer] has an empty buffer, [read] keeps it
    so, and on a closed object every [read] returns the empty bytes object
    and changes neither the object nor the process. *)
Theorem read_closed_is_final self size p :
  (closed self = true → buffer self = []) →
  (∀ data self' p', read json_loads self size p = Ok (data, self', p') →
     closed self' = true → buffer self' = [])
  ∧ (closed self = true → read json_loads self size p = Ok ([], self, p)).
Proof.
  intros Hinv. split.
  - intros data self' p' H Hc. unfold read in H.
    destruct (Z.of_nat (length (buffer self)) <? _).
    + destruct (readMore json_loads self p) as [[self1 p1]|e] eqn:Erm; [|done].
      destruct (readMore_conserves _ _ _ _ Erm) as (l & Hb & _ & _ & Hcl).
      cbn in H. destruct (length (buffer self1) =? 0)%nat eqn:E0.
      * injection H as <- <- <-. by apply Nat.eqb_eq, length_zero_iff_nil in E0.
      * injection H as <- <- <-. simpl in Hc. rewrite Hcl in Hc.
        specialize (Hinv Hc). rewrite Hinv in Hb. simpl in Hb.
        assert (l = []) as ->.
        { unfold readMore in Erm. rewrite Hc, orb_true_r in Erm.
          injection Erm as <- <-. rewrite Hinv in Hb.
          by destruct l. }
        rewrite Hb in E0. done.
    + cbn in H. destruct (length (buffer self) =? 0)%nat eqn:E0.
      * injection H as <- <- <-. by apply Nat.eqb_eq, length_zero_iff_nil in E0.
      * injection H as <- <- <-. simpl in Hc. specialize (Hinv Hc).
        rewrite Hinv in E0. done.
  - intros Hc. specialize (Hinv Hc). unfold read, readMore.
    rewrite Hc, orb_true_r, Hinv. simpl.
    destruct (_ <? _); destruct self; simpl in *; by subst.
Qed.

(** X6.  [read(0)] on an object that holds bytes returns the empty bytes
    object and leaves the object, still open, and the process as they
    were: an empty result that is no end of the data. *)
Theorem read_zero_keeps_buffer self p :
  buffer self ≠ [] → read json_loads self 0 p = Ok ([], self, p).
Proof.
  intros Hb. destruct self as [cl em buf sl st fl]. simpl in Hb.
  unfold read. cbn [Z.eqb buffer].
  assert ((Z.of_nat (length buf) <? 0) = false) as -> by (apply Z.ltb_ge; lia).
  cbn [mbind result_bind buffer].
  destruct buf as [|c x]; [done|]. reflexivity.
Qed.

(** X7.  What makes [readMore] raise on a line it has read: the exception
    of [json.loads] for a line that is no JSON; [KeyError] for an object
    without [type] and [TypeError] for JSON that is no object; and
    [TypeError] for a STATE line when [flushSeconds] is no number. *)
Theorem readMore_raises self p l rest :
  empty self = false → closed self = false →
  readline (stdin p) = (l, rest) → l ≠ [] →
  (∀ e, json_loads l = Raise e → readMore json_loads self p = Raise e)
  ∧ (∀ d, json_loads l = Ok (VDict d) → assoc_last "type" d = None →
       readMore json_loads self p = Raise (KeyError "type"))
  ∧ (∀ line, json_loads l = Ok line → (∀ d, line ≠ VDict d) →
       readMore json_loads self p = Raise TypeError)
  ∧ (∀ line ty, json_loads l = Ok line → getitem line "type" = Ok ty →
       eq_str ty "STATE" = true → as_number (flushSeconds self) = None →
       readMore json_loads self p = Raise TypeError).
Proof.
  intros He Hc Hr Hl. unfold readMore. rewrite He, Hc, Hr. cbn [orb].
  destruct l as [|c0 l0]; [done|]. split; [|split; [|split]].
  - by intros e ->.
  - intros d -> Hd. cbn. by rewrite Hd.
  - intros line -> Hline. destruct line; try done. by destruct (Hline d).
  - intros line ty -> Hty Hst Hnum. cbn. rewrite Hty. cbn. rewrite Hst.
    unfold time_time. cbn. by destruct (flushSeconds self).
Qed.

End ReadProofs.

Section MoreRunProofs.
Variable json_loads : bytes -> result value.
Variable repr_other : value -> string.
Variable environ : gmap string string.
Variable config_file : gmap string value -> gmap string value.
Variable create_session : gmap string value -> result unit.
Variable name_file : gmap string value -> list bytes -> FileMetadata.
Variable file_count : nat.
Variable size : Z.

Abbreviation the_main :=
  (main json_loads repr_other environ config_file create_session name_file file_count size).

Lemma run_spec_lines p segs :
  run_spec json_loads size p segs →
  ∃ rest, split_lines (stdin p) = concat (map seg_lines segs) ++ rest.
Proof.
  revert p; induction segs as [|s segs IH]; intros p; [by exists (split_lines (stdin p))|].
  cbn [run_spec]. intros (Hb & (ls & Hs) & _ & Hrun).
  destruct (IH _ Hrun) as [rest Hrest]. exists rest.
  cbn [map concat]. rewrite (seg_spec_lines _ _ _ _ Hs), <- app_assoc, <- Hrest.
  destruct Hs as (self & I & _).
  pose proof (lines_from_split _ _ _ (inv_lines _ _ _ _ _ _ _ I)) as E.
  rewrite Hb in E. exact E.
Qed.

Lemma run_spec_stopped_count p segs :
  run_spec json_loads size p segs →
  (length segs
   ≤ 1 + length (List.filter (line_is json_loads "STATE") (concat (map seg_lines segs))))%nat.
Proof.
  revert p; induction segs as [|s segs IH]; intros p; [simpl; lia|].
  cbn [run_spec]. intros (Hb & (ls & Hs) & Hst & Hrun).
  destruct segs as [|s1 segs]; [simpl; lia|].
  specialize (IH _ Hrun).
  change (concat (map seg_lines (s :: s1 :: segs)))
    with (seg_lines s ++ concat (map seg_lines (s1 :: segs))).
  rewrite List.filter_app, length_app.
  assert (1 ≤ length (List.filter (line_is json_loads "STATE") (seg_lines s)))%nat.
  { rewrite (seg_spec_lines _ _ _ _ Hs). destruct Hs as (self & I & Est & _).
    rewrite <- Est in Hst.
    destruct (inv_stopped _ _ _ _ _ _ _ I (Hst ltac:(done)))
      as [_ (ls' & l & f & k & -> & Hl & _)].
    rewrite List.filter_app, length_app. simpl. rewrite Hl. simpl. lia. }
  cbn [length] in *. lia.
Qed.

(** X8.  A run has at most one segment more than the input has STATE
    lines. *)
Theorem segments_bounded_by_state_lines curConfig p :
  ∃ segs r,
    the_main curConfig p = Some (segs, r)
    ∧ (length segs
       ≤ 1 + length (List.filter (line_is json_loads "STATE") (split_lines (stdin p))))%nat.
Proof.
  destruct (main_returns json_loads repr_other environ config_file create_session
              name_file file_count size curConfig p) as (segs & r & Hm).
  exists segs, r. split; [done|].
  destruct (main_spec _ _ _ _ _ _ _ _ _ _ _ _ Hm) as (Hrun & _ & _).
  destruct (run_spec_lines _ _ Hrun) as [rest ->].
  pose proof (run_spec_stopped_count _ _ Hrun).
  rewrite List.filter_app, length_app. lia.
Qed.

(** X9.  An exception of [config_compression] or of [create_session] in
    the first pass ends [main] with that exception before any segment
    exists. *)
Theorem main_fails_before_first_segment curConfig p :
  (∀ e, config_compression repr_other (config_file curConfig) = Raise e →
     the_main curConfig p = Some ([], Raise e))
  ∧ (∀ config e,
       config_compression repr_other (config_file curConfig) = Ok config →
       create_session config = Raise e →
       the_main curConfig p = Some ([], Raise e)).
Proof.
  split.
  - intros e He. unfold main. by rewrite main_loop_S, He.
  - intros config e Hc He. unfold main. by rewrite main_loop_S, Hc, He.
Qed.

(** X10.  On an input that is empty, with no schema retained, a valid
    read size, a configuration that resolves and a session that is
    created, the run is one segment to which [read] delivers nothing, not
    stopped at a checkpoint, and the loop ends by [break]. *)
Theorem empty_input_one_empty_segment curConfig config p :
  valid_size size →
  config_compression repr_other (config_file curConfig) = Ok config →
  create_session config = Ok tt →
  stdin p = [] → curSchemaBuffer p = [] →
  ∃ s, the_main curConfig p = Some ([s], Ok tt)
       ∧ concat (seg_chunks s) = [] ∧ seg_stopped s = false
       ∧ lastFlushTime (seg_after s) = lastFlushTime p.
Proof.
  intros Hv Hc Hcs Hin Hsch.
  destruct (main_loop_ok json_loads repr_other environ config_file create_session
              name_file file_count size curConfig config (S (length (stdin p))) 0 None p Hc)
    as [segs Hm]; [done| |lia|].
  { rewrite Hin. constructor. }
  destruct (main_spec _ _ _ _ _ _ _ _ _ _ _ _ Hm) as (Hrun & Hlast & _).
  destruct segs as [|s rest]; [by destruct (Hlast eq_refl) as (? & ? & _)|].
  cbn [run_spec] in Hrun. destruct Hrun as (Hb & (ls & Hs) & Hnext & _).
  pose proof (seg_spec_stdin _ _ _ _ Hs) as Hst. rewrite Hb in Hst.
  cbn [time_time snd set_ticks stdin] in Hst. rewrite Hin in Hst.
  symmetry in Hst. apply app_eq_nil in Hst as [Hcons Hafter].
  assert (seg_stopped s = false) as Hns.
  { destruct (seg_stopped s) eqn:E; [|done].
    pose proof (seg_spec_stopped_shrinks _ _ _ _ Hs E) as Hlt.
    rewrite Hafter, Hb in Hlt. cbn [time_time snd set_ticks stdin] in Hlt.
    rewrite Hin in Hlt. simpl in Hlt. lia. }
  destruct rest as [|s1 rest]; [|by rewrite Hnext in Hns].
  exists s. split; [exact Hm|]. split; [|split; [done|]].
  - rewrite (seg_spec_delivered _ _ _ _ Hs Hv), Hcons.
    destruct Hs as (self & _ & _ & -> & _). rewrite Hb. by rewrite app_nil_r.
  - destruct Hs as (self & I & Est & _). rewrite <- Est in Hns.
    destruct (inv_running _ _ _ _ _ _ _ I Hns) as [-> _]. by rewrite Hb.
Qed.

(** X11.  [HTTPS_PROXY] is read only together with [HTTP_PROXY]: when
    [HTTP_PROXY] is unset or empty, the proxy settings do not depend on
    the environment at all. *)
Theorem https_proxy_alone_is_ignored config :
  truthy (environ_get environ "HTTP_PROXY") = false →
  proxy_config config environ = proxy_config config ∅.
Proof. intros H. unfold proxy_config. rewrite H. reflexivity. Qed.

End MoreRunProofs.

Section MoreUploadProofs.
Variable repr_other : value -> string.
Variables gzip lzma : bytes -> bytes.
Variable json_dumps : value -> bytes.
Variable open_error : string -> exn.
Variable draws : nat -> Q.

(** X12.  Under the open function that [config_compression] stores for
    [none], the built-in [open], [put_object] takes the joined JSON lines
    for a file name.  When no local file has that name, it raises what
    [open] raises for the name, after one call of its body, without a
    request and without a sleep; when one has, the client's [put_object]
    is called with that file as [Body], not with the lines. *)
Theorem put_object_none_opens_a_file config fm data w desc args c :
  config !! "open_func" = Some (VFunc builtin_open) →
  get_encryption_args repr_other config = Ok (desc, args) →
  client_of config = Ok c →
  is_ClientError (open_error (string_of_list_byte (join_lines json_dumps data))) = false →
  (files w !! string_of_list_byte (join_lines json_dumps data) = None →
   put_object repr_other gzip lzma json_dumps open_error draws config fm data w
   = mkRetried (Raise (open_error (string_of_list_byte (join_lines json_dumps data))))
       w 1 [])
  ∧ (is_Some (files w !! string_of_list_byte (join_lines json_dumps data)) →
     put_object_body repr_other gzip lzma json_dumps open_error config fm data w
     = send (PutObject (FileBody (string_of_list_byte (join_lines json_dumps data)))
               (get config "s3_bucket") (relative_path fm)
               (default (VDict []) (assoc_last "ExtraArgs" args))) w).
Proof.
  intros Hf He Hc Hopen. split.
  - intros Hnone. unfold put_object, _retry_pattern, on_exception. cbn [Nat.sub].
    destruct (attempts_bounds draws
                (put_object_body repr_other gzip lzma json_dumps open_error config fm data)
                4 0 w) as (_ & _ & _ & _ & H5).
    apply H5; [|done].
    unfold put_object_body. rewrite He, Hc. cbn [lift]. unfold subscript.
    rewrite Hf. cbn [lift call_open_func]. by rewrite Hnone.
  - intros [content Hsome]. unfold put_object_body. rewrite He, Hc. cbn [lift].
    unfold subscript. rewrite Hf. cbn [lift call_open_func]. by rewrite Hsome.
Qed.

Lemma put_object_body_files config fm data w0 :
  files (snd (put_object_body repr_other gzip lzma json_dumps open_error config fm data w0))
  = files w0.
Proof.
  unfold put_object_body.
  destruct (get_encryption_args repr_other config) as [[desc args]|]; [|done].
  cbn [lift]. destruct (client_of config); [|done]. cbn [lift].
  destruct (subscript config "open_func"); [|done]. cbn [lift].
  destruct (call_open_func _ _ _ _ _ _); [|done]. cbn [lift].
  unfold send. by destruct (service w0 _).
Qed.

Lemma put_object_attempts_files config fm data left : ∀ n w0,
  files (final (attempts draws 2 10 left n
                  (put_object_body repr_other gzip lzma json_dumps open_error config fm data) w0))
  = files w0.
Proof.
  induction left as [|left IH]; intros n w0; cbn [attempts];
    pose proof (put_object_body_files config fm data w0) as Hbody;
    destruct (put_object_body _ _ _ _ _ _ _ _ w0) as [[a|e] w1]; simpl in Hbody;
    try done.
  - by destruct (is_ClientError e).
  - destruct (is_ClientError e); [|done]. cbn. by rewrite IH.
Qed.

(** X13.  [put_object] never changes a local file, and sends nothing when
    the encryption type is not supported, when the configuration has no
    client or when it has no open function. *)
Theorem put_object_keeps_files config fm data w :
  let r := put_object repr_other gzip lzma json_dumps open_error draws config fm data w in
  files (final r) = files w
  ∧ (is_ok (get_encryption_args repr_other config) = false
     ∨ is_ok (client_of config) = false
     ∨ config !! "open_func" = None →
     requests (final r) = requests w ∧ tries r = 1%nat ∧ is_ok (outcome r) = false).
Proof.
  cbv zeta. unfold put_object, _retry_pattern, on_exception. cbn [Nat.sub].
  split; [apply put_object_attempts_files|].
  - intros Hfail.
    assert (∃ e, put_object_body repr_other gzip lzma json_dumps open_error config fm data w
                 = (Raise e, w) ∧ is_ClientError e = false) as (e & Hb & Hne).
    { unfold put_object_body.
      destruct (get_encryption_args repr_other config) as [[desc args]|e] eqn:Ee.
      2:{ exists e. split; [done|].
          by apply (get_encryption_args_not_ClientError repr_other config). }
      cbn [lift]. destruct (client_of config) as [c|e] eqn:Ec.
      2:{ exists e. split; [done|]. by apply (client_of_not_ClientError config). }
      cbn [lift]. destruct Hfail as [?|[?|Ho]]; [done|done|].
      unfold subscript. rewrite Ho. by eexists. }
    destruct (attempts_bounds draws
                (put_object_body repr_other gzip lzma json_dumps open_error config fm data) 4 0 w)
      as (_ & _ & _ & _ & H5).
    rewrite (H5 e w Hb Hne). done.
Qed.

(** X14.  [config_compression] leaves every key but [compression],
    [open_func] and [path_template] as it found it.  A [compression] that is
    [None] is taken for [none].  Under [gzip] and [lzma] it raises
    [KeyError] when there is no [path_template] and [TypeError] when the
    template is not a string. *)
Theorem config_compression_edges (config_default : gmap string value) :
  (∀ config k, config_compression repr_other config_default = Ok config →
     k ≠ "compression" → k ≠ "open_func" → k ≠ "path_template" →
     config !! k = config_default !! k)
  ∧ (config_default !! "compression" = Some VNone →
     config_compression repr_other config_default
     = Ok (<["open_func" := VFunc builtin_open]>
             (config_default ∪ {["compression" := VStr "none"]})))
  ∧ (∀ s, config_default !! "compression" = Some (VStr s) →
       lower s = "gzip" ∨ lower s = "lzma" →
       (config_default !! "path_template" = None →
        config_compression repr_other config_default = Raise (KeyError "path_template"))
       ∧ (∀ v, config_default !! "path_template" = Some v → (∀ t, v ≠ VStr t) →
            config_compression repr_other config_default = Raise TypeError)).
Proof.
  split; [|split].
  - intros config k H Hk1 Hk2 Hk3. unfold config_compression in H.
    assert (∀ f, (<["open_func" := VFunc f]>
                    (config_default ∪ {["compression" := VStr "none"]})) !! k
                 = config_default !! k) as Hbase.
    { intros f. rewrite lookup_insert_ne; [|done]. by apply lookup_with_default. }
    destruct (String.eqb _ "gzip").
    { destruct (subscript _ "path_template") as [t|]; [|done]. cbn in H.
      destruct (str_add t ".gz") as [t'|]; [|done]. cbn in H. injection H as <-.
      rewrite lookup_insert_ne; [|done]. apply Hbase. }
    destruct (String.eqb _ "lzma").
    { destruct (subscript _ "path_template") as [t|]; [|done]. cbn in H.
      destruct (str_add t ".xz") as [t'|]; [|done]. cbn in H. injection H as <-.
      rewrite lookup_insert_ne; [|done]. apply Hbase. }
    destruct (_ || _); [|done]. injection H as <-. apply Hbase.
  - intros H. unfold config_compression.
    rewrite (get_with_default _ _ _ H). reflexivity.
  - intros s Hs Hl.
    assert (∀ f, subscript (<["open_func" := VFunc f]>
                              (config_default ∪ {["compression" := VStr "none"]}))
                   "path_template"
                 = match config_default !! "path_template" with
                   | Some v => Ok v
                   | None => Raise (KeyError "path_template")
                   end) as Hsub.
    { intros f. unfold subscript. rewrite lookup_insert_ne; [|done].
      by rewrite lookup_with_default. }
    unfold config_compression. rewrite (get_with_default _ _ _ Hs). cbn [format].
    split.
    + intros Hnone. destruct Hl as [-> | ->]; cbn [String.eqb Ascii.eqb Bool.eqb];
        by rewrite Hsub, Hnone.
    + intros v Hv Hnot. destruct Hl as [-> | ->]; cbn [String.eqb Ascii.eqb Bool.eqb];
        rewrite Hsub, Hv; cbn; destruct v; try done; by destruct (Hnot s0).
Qed.

End MoreUploadProofs.

(** * config_s3 *)

Section ConfigS3Proofs.
Variable datetime_format : DatetimeFormat.

(** The configuration after the two deprecated keys are moved. *)
Lemma config_s3_inv config_default config :
  config_s3 datetime_format config_default = Ok config →
  config !! "temp_dir" = None
  ∧ config !! "naming_convention" = None
  ∧ is_Some (config !! "s3_bucket")
  ∧ (∀ v, config_default !! "temp_dir" = Some v → config !! "work_dir" = Some v)
  ∧ (∀ s, config_default !! "naming_convention" = Some (VStr s) →
       config !! "path_template" = Some (VStr (convert_naming datetime_format s)))
  ∧ (∀ k, k ≠ "temp_dir" → k ≠ "naming_convention" →
       (k = "work_dir" → config_default !! "temp_dir" = None) →
       (k = "path_template" → config_default !! "naming_convention" = None) →
       config !! k = config_default !! k).
Proof.
  unfold config_s3. intros H.
  set (c1 := match config_default !! "temp_dir" with
             | Some v => <["work_dir" := v]> (delete "temp_dir" config_default)
             | None => config_default
             end) in *.
  assert (c1 !! "temp_dir" = None) as H1.
  { unfold c1. destruct (config_default !! "temp_dir") eqn:E; [|done].
    rewrite lookup_insert_ne; [|done]. apply lookup_delete_eq. }
  assert (∀ v, config_default !! "temp_dir" = Some v → c1 !! "work_dir" = Some v) as H2.
  { intros v E. unfold c1. rewrite E. apply lookup_insert_eq. }
  assert (∀ k, k ≠ "temp_dir" → (k = "work_dir" → config_default !! "temp_dir" = None) →
            c1 !! k = config_default !! k) as H3.
  { intros k Hk Hw. unfold c1. destruct (config_default !! "temp_dir") eqn:E; [|done].
    destruct (decide (k = "work_dir")) as [->|Hne]; [by specialize (Hw eq_refl)|].
    rewrite lookup_insert_ne; [|done]. by apply lookup_delete_ne. }
  clearbody c1.
  destruct (c1 !! "naming_convention") as [v|] eqn:En.
  - destruct v; try done. cbn in H.
    destruct (_ !! "s3_bucket") eqn:Eb; [|done]. injection H as <-.
    split; [|split; [|split; [|split; [|split]]]].
    + rewrite lookup_insert_ne; [|done]. rewrite lookup_delete_ne; done.
    + rewrite lookup_insert_ne; [|done]. apply lookup_delete_eq.
    + by eexists.
    + intros v0 Hv. rewrite lookup_insert_ne; [|done].
      rewrite lookup_delete_ne; [|done]. by apply H2.
    + intros s0 Hs0. rewrite H3 in En; [|done|done]. rewrite Hs0 in En.
      injection En as ->. apply lookup_insert_eq.
    + intros k Hk1 Hk2 Hk3 Hk4.
      destruct (decide (k = "path_template")) as [->|Hne].
      { specialize (Hk4 eq_refl). rewrite H3 in En; [|done|done]. congruence. }
      rewrite lookup_insert_ne; [|done]. rewrite lookup_delete_ne; [|done].
      by apply H3.
  - cbn in H. destruct (c1 !! "s3_bucket") eqn:Eb; [|done]. injection H as <-.
    split; [done|]. split; [done|]. split; [by eexists|]. split; [done|]. split.
    + intros s Hs. rewrite H3 in En; [|done|done]. congruence.
    + intros k Hk1 Hk2 Hk3 Hk4. by apply H3.
Qed.

Lemma config_s3_clean config :
  config !! "temp_dir" = None → config !! "naming_convention" = None →
  config_s3 datetime_format config
  = match config !! "s3_bucket" with
    | Some _ => Ok config
    | None => Raise (OtherError "Config is missing required settings: {'s3_bucket'}")
    end.
Proof. intros H1 H2. unfold config_s3. rewrite H1, H2. reflexivity. Qed.

(** X15.  A configuration that [config_s3] returns has a bucket and none
    of the two deprecated keys, and [config_s3] returns it unchanged when
    it is given it again. *)
Theorem config_s3_result_is_migrated config_default config :
  config_s3 datetime_format config_default = Ok config →
  config !! "temp_dir" = None
  ∧ config !! "naming_convention" = None
  ∧ is_Some (config !! "s3_bucket")
  ∧ config_s3 datetime_format config = Ok config.
Proof.
  intros H. destruct (config_s3_inv _ _ H) as (H1 & H2 & [bucket H3] & _).
  split; [done|]. split; [done|]. split; [by eexists|].
  by rewrite config_s3_clean, H3.
Qed.

(** X16.  [config_s3] moves the value of [temp_dir] to [work_dir],
    replacing a [work_dir] that was there, and the rewritten
    [naming_convention] to [path_template], replacing a [path_template]
    that was there; every other key keeps its value. *)
Theorem config_s3_moves_deprecated_keys config_default config :
  config_s3 datetime_format config_default = Ok config →
  (∀ v, config_default !! "temp_dir" = Some v → config !! "work_dir" = Some v)
  ∧ (∀ s, config_default !! "naming_convention" = Some (VStr s) →
       config !! "path_template" = Some (VStr (convert_naming datetime_format s)))
  ∧ (∀ k, k ≠ "temp_dir" → k ≠ "naming_convention" →
       (k = "work_dir" → config_default !! "temp_dir" = None) →
       (k = "path_template" → config_default !! "naming_convention" = None) →
       config !! k = config_default !! k).
Proof. intros H. by destruct (config_s3_inv _ _ H) as (_ & _ & _ & ? & ? & ?). Qed.

(** X17.  [config_s3] raises when the configuration has no [s3_bucket],
    whatever else it holds, and when [naming_convention] is not a string;
    with a bucket and a [naming_convention] that is absent or a string it
    returns. *)
Theorem config_s3_requires_bucket (config_default : gmap string value) :
  (config_default !! "s3_bucket" = None →
   is_ok (config_s3 datetime_format config_default) = false)
  ∧ (∀ v, config_default !! "naming_convention" = Some v → (∀ s, v ≠ VStr s) →
       config_s3 datetime_format config_default = Raise AttributeError)
  ∧ (is_Some (config_default !! "s3_bucket") →
     (config_default !! "naming_convention" = None
      ∨ ∃ s, config_default !! "naming_convention" = Some (VStr s)) →
     is_ok (config_s3 datetime_format config_default) = true).
Proof.
  assert (∀ k, k ≠ "temp_dir" → k ≠ "work_dir" →
            match config_default !! "temp_dir" with
            | Some v => <["work_dir" := v]> (delete "temp_dir" config_default)
            | None => config_default
            end !! k = config_default !! k) as H3.
  { intros k Hk Hw. destruct (config_default !! "temp_dir") eqn:E; [|done].
    rewrite lookup_insert_ne; [|done]. by apply lookup_delete_ne. }
  split; [|split].
  - intros Hb. destruct (config_s3 datetime_format config_default) as [config|] eqn:E;
      [|done].
    destruct (config_s3_inv _ _ E) as (_ & _ & [bucket Hbucket] & _ & _ & Hk).
    rewrite Hk in Hbucket; [congruence|done..].
  - intros v Hv Hnot. unfold config_s3. rewrite H3; [|done..]. rewrite Hv.
    destruct v; try done. by destruct (Hnot s).
  - intros [bucket Hb] Hn. unfold config_s3. rewrite H3; [|done..].
    destruct Hn as [->|[s ->]]; cbn.
    + rewrite H3; [|done..]. by rewrite Hb.
    + rewrite lookup_insert_ne; [|done]. rewrite lookup_delete_ne; [|done].
      rewrite H3; [|done..]. by rewrite Hb.
Qed.
End ConfigS3Proofs.

(** * The rewriting of naming conventions *)

Lemma replace_from_cons old new c s :
  replace_from old new 0 (String c s)
  = if starts_with old (String c s)
    then new +:+ replace_from old new (String.length old - 1) s
    else String c (replace_from old new 0 s).
Proof. reflexivity. Qed.

Lemma starts_with_cons a old' c s :
  starts_with (String a old') (String c s) = Ascii.eqb a c && starts_with old' s.
Proof. reflexivity. Qed.

Lemma replace_from_no_brace_app old' new pre s :
  no_brace pre = true →
  replace_from (String "{" old') new 0 (pre +:+ s)
  = pre +:+ replace_from (String "{" old') new 0 s.
Proof.
  induction pre as [|c pre IH]; intros H; [done|].
  cbn [no_brace] in H. apply andb_true_iff in H as [Hc Hpre].
  apply negb_true_iff in Hc.
  change (String c pre +:+ s) with (String c (pre +:+ s)).
  rewrite replace_from_cons, starts_with_cons, Hc. cbn [andb].
  rewrite IH; [|done]. reflexivity.
Qed.

Lemma replace_no_brace old' new s :
  no_brace s = true → replace (String "{" old') new s = s.
Proof.
  intros H. unfold replace.
  assert (s = s +:+ "") as E.
  { clear. induction s as [|c s IH]; [reflexivity|].
    change (String c s +:+ "") with (String c (s +:+ "")). by rewrite <- IH. }
  rewrite E at 1. rewrite (replace_from_no_brace_app _ _ _ _ H). cbn. by rewrite <- E.
Qed.

Lemma convert_naming_app pre s :
  no_brace pre = true →
  convert_naming datetime_format_default (pre +:+ s)
  = pre +:+ convert_naming datetime_format_default s.
Proof.
  intros H. unfold convert_naming, replace. cbn [date_format date_time_format
    datetime_format_default].
  by rewrite !(replace_from_no_brace_app _ _ _ _ H).
Qed.

(** X18.  With the default formats, [config_s3] leaves a naming convention
    without an opening brace as it is, and rewrites the four deprecated
    placeholders wherever they stand: [{timestamp}] and [{date}] to
    [{date_time}] with the default format of each, [{timestamp:] and
    [{date:] to [{date_time:]; what follows a placeholder is rewritten
    in the same way. *)
Theorem convert_naming_placeholders pre post :
  no_brace pre = true →
  convert_naming datetime_format_default pre = pre
  ∧ convert_naming datetime_format_default (pre +:+ "{timestamp}" +:+ post)
    = pre +:+ "{date_time:%Y%m%dT%H%M%S}" +:+ convert_naming datetime_format_default post
  ∧ convert_naming datetime_format_default (pre +:+ "{date}" +:+ post)
    = pre +:+ "{date_time:%Y%m%d}" +:+ convert_naming datetime_format_default post
  ∧ convert_naming datetime_format_default (pre +:+ "{timestamp:" +:+ post)
    = pre +:+ "{date_time:" +:+ convert_naming datetime_format_default post
  ∧ convert_naming datetime_format_default (pre +:+ "{date:" +:+ post)
    = pre +:+ "{date_time:" +:+ convert_naming datetime_format_default post.
Proof.
  intros H. split; [|split; [|split; [|split]]].
  - unfold convert_naming. by rewrite !(replace_no_brace _ _ pre H).
  - rewrite (convert_naming_app _ _ H). f_equal; reflexivity.
  - rewrite (convert_naming_app _ _ H). f_equal; reflexivity.
  - rewrite (convert_naming_app _ _ H). f_equal; reflexivity.
  - rewrite (convert_naming_app _ _ H). f_equal; reflexivity.
Qed.

Section SessionProofs.
Variable repr_other : value -> string.
Variable draws : nat -> Q.





End SessionProofs.

Section UploadFailureProofs.
Variable repr_other : value -> string.
Variable draws : nat -> Q.

Lemma upload_attempts_failure config fm left : ∀ n w,
  uploading config fm w →
  let r := attempts draws 2 10 left n (upload_file_body repr_other config fm) w in
  ∀ e, outcome r = Raise e →
    files (final r) = files w
    ∧ ((r = mkRetried (Raise e) w (1 + n) []
        ∧ is_ClientError e = false
        ∧ (get_encryption_args repr_other config = Raise e
           ∨ client_of config = Raise e))
       ∨ ∃ j, (j ≤ left)%nat
              ∧ tries r = (1 + n + j)%nat
              ∧ requests (final r)
                = requests w
                  ++ replicate (Datatypes.S j) (upload_call repr_other config fm)
              ∧ service w (length (requests w) + j)%nat = Some e
              ∧ (∀ i, (i < j)%nat →
                   ∃ e', service w (length (requests w) + i)%nat = Some e'
                         ∧ is_ClientError e' = true)
              ∧ (is_ClientError e = true → j = left)).
Proof.
  cbv zeta.
  induction left as [|left IH]; intros n w Hup; cbn [attempts];
    pose proof (upload_file_body_uploading repr_other config fm w Hup) as Hb;
    destruct (upload_file_body repr_other config fm w) as [[[]|e] w'] eqn:Eb.
  - intros; discriminate.
  - destruct Hb as (H1 & H2 & [(H3 & H4 & _)|(H3 & Hn & Hcfg)]).
    + assert (∀ c : bool,
                (if c then mkRetried (Raise e) w' (1 + n) []
                 else mkRetried (Raise e) w' (1 + n) [])
                = (mkRetried (Raise e) w' (1 + n) [] : Retried World unit)) as Hif
        by (by intros []).
      rewrite Hif. cbn. intros e' [= <-].
      split; [done|]. right. exists 0%nat. rewrite !Nat.add_0_r.
      split; [lia|]. split; [lia|]. split; [done|]. split; [done|].
      split; [intros; lia|done].
    + rewrite Hn. cbn. intros e' [= <-]. split; [done|]. left.
      assert (w' = w) as ->.
      { destruct w, w'; simpl in *; by subst. }
      done.
  - intros; discriminate.
  - destruct Hb as (H1 & H2 & [(H3 & H4 & Hok1 & Hok2)|(H3 & Hn & Hcfg)]).
    + destruct (is_ClientError e) eqn:Ece; cbn.
      * intros e' He'.
        destruct (IH (Datatypes.S n) w' (uploading_after _ _ _ _ H2 Hup) e' He')
          as (Hfiles & [(_ & _ & [Hbad|Hbad])|(j & Hj & Ht & Hreq & Hsv & Hbefore & Hlast)]).
        { by rewrite Hbad in Hok1. }
        { by rewrite Hbad in Hok2. }
        split; [by rewrite Hfiles|]. right. exists (Datatypes.S j).
        split; [lia|]. split; [lia|]. split.
        { rewrite Hreq, H3, <- app_assoc. done. }
        split.
        { rewrite H1, H3, length_app in Hsv. simpl in Hsv.
          by replace (length (requests w) + Datatypes.S j)%nat
            with (length (requests w) + 1 + j)%nat by lia. }
        split.
        { intros i Hi. destruct i as [|i].
          - exists e. by rewrite Nat.add_0_r.
          - destruct (Hbefore i ltac:(lia)) as (e0 & He0 & Hc0). exists e0.
            split; [|done]. rewrite H1, H3, length_app in He0. simpl in He0.
            by replace (length (requests w) + Datatypes.S i)%nat
              with (length (requests w) + 1 + i)%nat by lia. }
        intros Hc. by rewrite (Hlast Hc).
      * intros e' [= <-]. split; [done|]. right. exists 0%nat. rewrite !Nat.add_0_r.
        split; [lia|]. split; [lia|]. split; [done|]. split; [done|].
        split; [intros; lia|congruence].
    + rewrite Hn. cbn. intros e' [= <-]. split; [done|]. left.
      assert (w' = w) as ->.
      { destruct w, w'; simpl in *; by subst. }
      done.
Qed.

Lemma upload_file_body_config_bad config fm w e :
  uploading config fm w →
  get_encryption_args repr_other config = Raise e
  ∨ (is_ok (get_encryption_args repr_other config) = true ∧ client_of config = Raise e) →
  upload_file_body repr_other config fm w = (Raise e, w) ∧ is_ClientError e = false.
Proof.
  intros [Hl Hs] H. unfold upload_file_body. rewrite Hl.
  apply Nat.ltb_lt in Hs. rewrite Hs. cbn [negb andb].
  destruct H as [He|[Hok Hc]].
  - rewrite He. split; [done|]. by apply get_encryption_args_not_ClientError in He.
  - rewrite Hc. split; [|by apply client_of_not_ClientError in Hc].
    by destruct (get_encryption_args repr_other config) as [[desc args]|e'].
Qed.

(** X21.  An [upload_file] that raises has deleted nothing.  It raises a
    [ClientError] only after five calls of the client's [upload_file], all
    with the same arguments and all ended by a [ClientError].  Another
    exception is raised without a further try: the client was called once
    in every try, but possibly not in the last, always with the same
    arguments, and every client call before the last try raised a
    [ClientError].  What the encryption settings or the client lookup
    raise is raised by the first call of the body, before any request and
    without a sleep. *)
Theorem upload_file_failure_keeps_files config fm w :
  let r := upload_file repr_other draws config fm w in
  (∀ e, outcome r = Raise e → files (final r) = files w ∧ uploading config fm w)
  ∧ (∀ e, outcome r = Raise e → is_ClientError e = true →
       tries r = 5%nat
       ∧ requests (final r) = requests w ++ replicate 5 (upload_call repr_other config fm)
       ∧ service w (length (requests w) + 4)%nat = Some e
       ∧ ∀ i, (i < 4)%nat →
           ∃ e', service w (length (requests w) + i)%nat = Some e'
                 ∧ is_ClientError e' = true)
  ∧ (∀ e, outcome r = Raise e → is_ClientError e = false →
       (∃ k, (k = tries r ∨ Datatypes.S k = tries r)
             ∧ requests (final r)
               = requests w ++ replicate k (upload_call repr_other config fm))
       ∧ ∀ i, (i < tries r - 1)%nat →
           ∃ e', service w (length (requests w) + i)%nat = Some e'
                 ∧ is_ClientError e' = true)
  ∧ (∀ e, uploading config fm w →
       get_encryption_args repr_other config = Raise e
       ∨ (is_ok (get_encryption_args repr_other config) = true
          ∧ client_of config = Raise e) →
       r = mkRetried (Raise e) w 1 []).
Proof.
  cbv zeta. split; [|split; [|split]].
  4:{ intros e Hup Hbad.
      destruct (upload_file_body_config_bad config fm w e Hup Hbad) as [Hb Hn].
      unfold upload_file, _retry_pattern, on_exception. cbn [Nat.sub].
      destruct (attempts_bounds draws (upload_file_body repr_other config fm) 4 0 w)
        as (_ & _ & _ & _ & H5).
      by apply H5. }
  all: destruct (uploading_dec config fm w) as [Hup|Hup];
    [|rewrite (upload_file_idle _ _ _ _ _ Hup); cbn; intros; discriminate].
  all: unfold upload_file, _retry_pattern, on_exception; cbn [Nat.sub].
  all: pose proof (upload_attempts_failure config fm 4 0 w Hup) as H; cbv zeta in H.
  - intros e Hout. by destruct (H e Hout) as [? _].
  - intros e Hout Hc.
    destruct (H e Hout) as (_ & [(_ & Hn & _)|(j & Hj & Ht & Hreq & Hsv & Hbefore & Hlast)]).
    { congruence. }
    rewrite (Hlast Hc) in *. split; [by rewrite Ht|]. split; [done|]. done.
  - intros e Hout Hn.
    destruct (H e Hout) as (_ & [(Hr & _ & Hcfg)|(j & Hj & Ht & Hreq & Hsv & Hbefore & _)]).
    { rewrite Hr. cbn. split; [|intros; lia]. exists 0%nat. split; [by right|].
      by rewrite app_nil_r. }
    rewrite Ht. cbn [Nat.add]. split; [exists (Datatypes.S j); split; [by left|done]|].
    replace (Datatypes.S j - 1)%nat with j by lia. done.
Qed.
End UploadFailureProofs.

Section ReadFrameProofs.
Variable json_loads : bytes -> result value.

(** X22.  Once [empty] is set, at the end of the input or at a checkpoint,
    [read] takes nothing more from the input, reads no clock and leaves the
    module's globals alone: it returns, handing out what is left in the
    buffer, and [empty] and [stoppedState] stay as they are. *)
Theorem read_after_end_leaves_process self size p :
  empty self = true →
  ∃ data self',
    read json_loads self size p = Ok (data, self', p)
    ∧ data ++ buffer self' = buffer self
    ∧ empty self' = true
    ∧ stoppedState self' = stoppedState self
    ∧ (closed self' = true ↔ closed self = true ∨ buffer self = []).
Proof.
  intros He. unfold read, readMore. rewrite He. cbn [orb].
  assert ((if Z.of_nat (length (buffer self)) <? (if size =? -1 then 8192 else size)
           then Ok (self, p) else Ok (self, p))
          = (Ok (self, p) : result (WrappedIoBuffer * Process))) as ->
    by by destruct (_ <? _).
  cbn [mbind result_bind].
  destruct (length (buffer self) =? 0)%nat eqn:E0.
  - apply Nat.eqb_eq, length_zero_iff_nil in E0. eexists _, _. split; [done|].
    simpl. rewrite E0. split; [done|]. split; [done|]. split; [done|]. split; auto.
  - eexists _, _. split; [done|]. simpl. rewrite slice_take_drop.
    split; [done|]. split; [done|]. split; [done|].
    apply Nat.eqb_neq in E0. split; [auto|]. intros [H|H]; [done|].
    rewrite H in E0. done.
Qed.

(** X23.  What one [readMore] does to the process: the clock is read at
    most once; [curSchemaBuffer] is kept or grows by the line taken from the
    input; and [lastFlushTime] is kept unless the call stops the segment at
    a checkpoint, when it becomes the clock reading of that call, which is
    more than [flushSeconds] after the old value. *)
Theorem readMore_process_frame self p self' p' :
  readMore json_loads self p = Ok (self', p') →
  now p' = now p
  ∧ (ticks p' = ticks p ∨ ticks p' = Datatypes.S (ticks p))
  ∧ (curSchemaBuffer p' = curSchemaBuffer p
     ∨ curSchemaBuffer p' = curSchemaBuffer p ++ (readline (stdin p)).1)
  ∧ (lastFlushTime p' = lastFlushTime p
     ∨ (stoppedState self' = true ∧ empty self' = true
        ∧ ticks p' = Datatypes.S (ticks p)
        ∧ lastFlushTime p' = now p (ticks p)
        ∧ float_gt (now p (ticks p) - lastFlushTime p)%Q (flushSeconds self)
          = Ok true)).
Proof.
  intros H. unfold readMore in H.
  destruct (empty self || closed self).
  { injection H as <- <-. auto. }
  destruct (readline (stdin p)) as [l rest] eqn:Er. cbn [fst].
  destruct l as [|c0 l0].
  { injection H as <- <-. simpl. auto. }
  destruct (json_loads (c0 :: l0)) as [line|]; [|done]. simpl in H.
  destruct (getitem line "type") as [ty|]; [|done]. simpl in H.
  assert (∀ (self1 : WrappedIoBuffer) (p1 : Process),
    Ok (set_buffer self1 (buffer self1 ++ c0 :: l0),
        if eq_str ty "SCHEMA"
        then set_curSchemaBuffer p1 (curSchemaBuffer p1 ++ c0 :: l0) else p1)
    = Ok (self', p') →
    now p' = now p1 ∧ ticks p' = ticks p1 ∧ lastFlushTime p' = lastFlushTime p1
    ∧ (curSchemaBuffer p' = curSchemaBuffer p1
       ∨ curSchemaBuffer p' = curSchemaBuffer p1 ++ c0 :: l0)
    ∧ stoppedState self' = stoppedState self1 ∧ empty self' = empty self1) as Hk.
  { intros self1 p1 [= <- <-]. destruct (eq_str ty "SCHEMA"); simpl; auto 10. }
  destruct (eq_str ty "STATE").
  - unfold time_time in H. simpl in H.
    destruct (float_gt _ (flushSeconds self)) as [late|] eqn:Eg; [|done]. simpl in H.
    destruct late; simpl in H.
    + destruct (Hk _ _ H) as (K1 & K2 & K3 & K4 & K5 & K6). simpl in *.
      split; [done|]. split; [auto|]. split; [done|]. right. done.
    + destruct (Hk _ _ H) as (K1 & K2 & K3 & K4 & K5 & K6). simpl in *.
      split; [done|]. split; [auto|]. split; [done|]. by left.
  - simpl in H. destruct (Hk _ _ H) as (K1 & K2 & K3 & K4 & K5 & K6). simpl in *.
    split; [done|]. split; [auto|]. split; [done|]. by left.
Qed.
End ReadFrameProofs.

Lemma read_at_most_size_witness :
  ∃ data self' p',
    read Json.loads Example.segmenter 10 Example.process = Ok (data, self', p')
    ∧ Z.of_nat (length data) <= 10.
Proof.
  eexists _, _, _. split; [vm_compute; reflexivity|].
  refine (proj1 (read_at_most_size Json.loads Example.segmenter 10 Example.process
                   _ _ _ _) _); [vm_compute; reflexivity|lia].
Defined.

Lemma read_conserves_bytes_witness :
  ∃ data self' p' l,
    read Json.loads Example.segmenter 10 Example.process = Ok (data, self', p')
    ∧ data ++ buffer self' = buffer Example.segmenter ++ l
    ∧ stdin Example.process = l ++ stdin p'.
Proof.
  destruct (read Json.loads Example.segmenter 10 Example.process)
    as [[[data self'] p']|e] eqn:E; [|vm_compute in E; discriminate].
  destruct (read_conserves_bytes Json.loads _ _ _ _ _ _ E) as (l & H1 & H2 & _).
  by exists data, self', p', l.
Defined.

Lemma read_closed_is_final_witness :
  closed (set_closed Example.segmenter true) = true
  ∧ read Json.loads (set_closed Example.segmenter true) 10 Example.process
    = Ok ([], set_closed Example.segmenter true, Example.process).
Proof.
  split; [reflexivity|].
  apply (read_closed_is_final Json.loads (set_closed Example.segmenter true) 10
           Example.process); reflexivity.
Defined.

Lemma read_zero_keeps_buffer_witness :
  read Json.loads (set_buffer Example.segmenter Example.state_line) 0 Example.process
  = Ok ([], set_buffer Example.segmenter Example.state_line, Example.process).
Proof. apply read_zero_keeps_buffer. vm_compute. discriminate. Defined.

Lemma readMore_raises_witness :
  readMore Json.loads Example.segmenter
    (import_module (b "oops") (Example.clock [0%Q])) = Raise JSONDecodeError.
Proof.
  refine (proj1 (readMore_raises Json.loads Example.segmenter
                   (import_module (b "oops") (Example.clock [0%Q])) (b "oops") []
                   _ _ _ _) JSONDecodeError _).
  - reflexivity.
  - reflexivity.
  - vm_compute; reflexivity.
  - vm_compute; discriminate.
  - vm_compute; reflexivity.
Defined.

Lemma empty_input_one_empty_segment_witness :
  ∃ s, Example.main ∅ 8192 Example.config [] [0; 1]%Q = Some ([s], Ok tt)
       ∧ concat (seg_chunks s) = [] ∧ seg_stopped s = false
       ∧ lastFlushTime (seg_after s) = 0%Q.
Proof.
  unfold Example.main.
  apply (empty_input_one_empty_segment Json.loads Example.repr_other ∅
           Example.config_file Example.create_session Example.name_file Example.file_count 8192
           Example.config
           (<["open_func" := VFunc builtin_open]>
              (Example.config ∪ {["compression" := VStr "none"]}))
           (import_module [] (Example.clock [0; 1]%Q))).
  - right; lia.
  - apply (config_compression_plain _ _ "none"); [vm_compute; reflexivity|by right].
  - reflexivity.
  - reflexivity.
  - reflexivity.
Defined.

Lemma https_proxy_alone_is_ignored_witness :
  proxy_config Example.config {["HTTPS_PROXY" := "https://proxy"]}
  = proxy_config Example.config ∅.
Proof. apply https_proxy_alone_is_ignored. vm_compute; reflexivity. Defined.

Lemma put_object_none_opens_a_file_witness :
  let config : gmap string value :=
    {[ "open_func" := VFunc builtin_open; "client" := VClient VNone (VDict []) ]} in
  put_object Example.repr_other Example.tag (@rev byte) Example.json_dumps
    (λ _, OtherError "OSError: File name too long") (λ _, 0%Q)
    config (mkFileMetadata "/tmp/a.json" "a.json") [VInt 1] (mkWorld ∅ [] (λ _, None))
  = mkRetried (Raise (OtherError "OSError: File name too long"))
      (mkWorld ∅ [] (λ _, None)) 1 [].
Proof.
  cbv zeta.
  refine (proj1 (put_object_none_opens_a_file Example.repr_other Example.tag (@rev byte)
                   Example.json_dumps (λ _, OtherError "OSError: File name too long")
                   (λ _, 0%Q) _ _ _ _ "" [] (VClient VNone (VDict []))
                   _ _ _ _) _).
  - vm_compute; reflexivity.
  - vm_compute; reflexivity.
  - vm_compute; reflexivity.
  - reflexivity.
  - vm_compute; reflexivity.
Defined.

Lemma config_s3_result_is_migrated_witness :
  ∃ config,
    config_s3 datetime_format_default
      {[ "s3_bucket" := VStr "bucket"; "temp_dir" := VStr "/tmp/work";
         "naming_convention" := VStr "{stream}-{timestamp}.json" ]} = Ok config
    ∧ config !! "temp_dir" = None
    ∧ config !! "naming_convention" = None
    ∧ is_Some (config !! "s3_bucket")
    ∧ config_s3 datetime_format_default config = Ok config.
Proof.
  destruct (config_s3 datetime_format_default _) as [config|e] eqn:E;
    [|vm_compute in E; discriminate].
  exists config. split; [reflexivity|].
  exact (config_s3_result_is_migrated _ _ _ E).
Defined.

Lemma config_s3_moves_deprecated_keys_witness :
  ∃ config,
    config_s3 datetime_format_default
      {[ "s3_bucket" := VStr "bucket"; "temp_dir" := VStr "/tmp/work";
         "work_dir" := VStr "/old" ]} = Ok config
    ∧ config !! "work_dir" = Some (VStr "/tmp/work").
Proof.
  destruct (config_s3 datetime_format_default _) as [config|e] eqn:E;
    [|vm_compute in E; discriminate].
  exists config. split; [reflexivity|].
  apply (proj1 (config_s3_moves_deprecated_keys _ _ _ E)). vm_compute; reflexivity.
Defined.

Lemma convert_naming_placeholders_witness :
  convert_naming datetime_format_default ("logs/" +:+ "{timestamp}" +:+ ".json")
  = "logs/" +:+ "{date_time:%Y%m%dT%H%M%S}"
    +:+ convert_naming datetime_format_default ".json".
Proof.
  refine (proj1 (proj2 (convert_naming_placeholders "logs/" ".json" _))). reflexivity.
Defined.



Lemma read_after_end_leaves_process_witness :
  let self := set_empty (set_buffer Example.segmenter Example.state_line) true in
  ∃ data self',
    read Json.loads self 4 Example.process = Ok (data, self', Example.process)
    ∧ data ++ buffer self' = buffer self
    ∧ empty self' = true.
Proof.
  cbv zeta.
  destruct (read_after_end_leaves_process Json.loads
              (set_empty (set_buffer Example.segmenter Example.state_line) true) 4
              Example.process eq_refl) as (data & self' & H1 & H2 & H3 & _).
  by exists data, self'.
Defined.

Lemma readMore_process_frame_witness :
  ∃ self' p',
    readMore Json.loads Example.segmenter Example.process = Ok (self', p')
    ∧ now p' = now Example.process
    ∧ (ticks p' = ticks Example.process ∨ ticks p' = Datatypes.S (ticks Example.process)).
Proof.
  destruct (readMore Json.loads Example.segmenter Example.process)
    as [[self' p']|e] eqn:E; [|vm_compute in E; discriminate].
  exists self', p'. split; [reflexivity|].
  destruct (readMore_process_frame Json.loads _ _ _ _ E) as (H1 & H2 & _). by split.
Defined.
